(** * zato.server.pickup: the file pickup manager

    A shallow embedding of [zato/server/pickup.py] (the [PickupEvent] and
    [PickupManager] classes) and the properties of its dispatcher.

    Python values the module handles are modelled by small inductive types,
    the manager's dictionaries by finite maps, and everything the module
    calls but does not define (inotify, the file system, the import
    machinery, greenlets, the logger) by an environment of oracles that may
    answer or raise.  Each such call is appended to a history, so that the
    order and the number of the calls a method makes can be stated. *)

From Stdlib Require Import ZArith NArith Ascii String Lia.
From stdpp Require Import base option list strings gmap fin_maps.

Local Open Scope string_scope.
Local Open Scope Z_scope.
Local Open Scope list_scope.

(** ** Python values and exceptions *)

(** The objects that travel through the module: file contents are byte
    strings, parsers return arbitrary objects ([PyObject] is a reference to
    any object of another type, named by its identity). *)
Inductive pyobj : Type :=
| PyNone
| PyBool (b : bool)
| PyInt (z : Z)
| PyStr (s : string)
| PyObject (id : N).

(** Truth value of an object, as [if x:] and [not x] compute it. *)
Definition truthy (o : pyobj) : bool :=
  match o with
  | PyNone => false
  | PyBool b => b
  | PyInt z => negb (z =? 0)
  | PyStr s => negb (String.eqb s "")
  | PyObject _ => true
  end.

(** Exception classes.  Every class but the last three derives from
    [Exception]; [KeyboardInterrupt], [SystemExit] and [GeneratorExit]
    derive from [BaseException] only. *)
Inductive exn_class : Type :=
| PlainException
| IOError
| OSError
| KeyError
| ValueError
| TypeError
| ImportError
| AttributeError
| NotImplementedError
| RuntimeError
| KeyboardInterrupt
| SystemExit
| GeneratorExit.

Record exn : Type := Exn { exn_cls : exn_class; exn_arg : pyobj }.

(** [isinstance(e, Exception)]: what [except Exception, e] catches. *)
Definition is_Exception (e : exn) : bool :=
  match exn_cls e with
  | KeyboardInterrupt | SystemExit | GeneratorExit => false
  | _ => true
  end.

(** [isinstance(e, KeyboardInterrupt)]: what [except KeyboardInterrupt]
    catches. *)
Definition is_KeyboardInterrupt (e : exn) : bool :=
  match exn_cls e with
  | KeyboardInterrupt => true
  | _ => false
  end.

Inductive result (A : Type) : Type :=
| Ok (a : A)
| Raise (e : exn).
Arguments Ok {A} a.
Arguments Raise {A} e.

(** ** String helpers of the Python runtime *)

(** The characters [str.strip()] removes: space, tab, newline, vertical
    tab, form feed, carriage return. *)
Definition is_space (c : ascii) : bool :=
  let n := nat_of_ascii c in
  ((9 <=? n)%nat && (n <=? 13)%nat) || (n =? 32)%nat.

Fixpoint lstrip (s : string) : string :=
  match s with
  | EmptyString => EmptyString
  | String c s' => if is_space c then lstrip s' else s
  end.

Fixpoint rstrip (s : string) : string :=
  match s with
  | EmptyString => EmptyString
  | String c s' =>
      match rstrip s' with
      | EmptyString => if is_space c then EmptyString else String c EmptyString
      | r => String c r
      end
  end.

(** [s.strip()] *)
Definition strip (s : string) : string := rstrip (lstrip s).

(** [s.split(sep)] for a one-character separator: never the empty list. *)
Fixpoint split (sep : ascii) (s : string) : list string :=
  match s with
  | EmptyString => [EmptyString]
  | String c s' =>
      if Ascii.eqb c sep then EmptyString :: split sep s'
      else match split sep s' with
           | [] => [String c EmptyString]
           | w :: ws => String c w :: ws
           end
  end.

(** [sep.join(parts)] *)
Fixpoint join (sep : string) (parts : list string) : string :=
  match parts with
  | [] => EmptyString
  | [p] => p
  | p :: rest => p +:+ sep +:+ join sep rest
  end.

(** [parts[0:-1]] *)
Definition but_last (parts : list string) : list string := removelast parts.

(** [parts[-1]] of a list [split] returned (it is never empty). *)
Definition last_part (parts : list string) : string := List.last parts EmptyString.

Definition startswith_slash (s : string) : bool :=
  match s with
  | String c _ => Ascii.eqb c "/"%char
  | EmptyString => false
  end.

Fixpoint endswith_slash (s : string) : bool :=
  match s with
  | EmptyString => false
  | String c EmptyString => Ascii.eqb c "/"%char
  | String _ s' => endswith_slash s'
  end.

(** [os.path.join(a, b)] of posixpath, for two components. *)
Definition os_path_join (a b : string) : string :=
  if startswith_slash b then b
  else if String.eqb a "" || endswith_slash a then a +:+ b
  else a +:+ "/" +:+ b.

(** ** Data model *)

(** A compiled pattern is an object with a [match] method; the module is
    handed such objects ready-made, so a pattern is named by its identity and
    the environment says which names it matches. *)
Definition Pattern : Type := N.

(** The value [pe.data] starts with: the module-level [_singleton]. *)
Inductive data_field : Type :=
| _singleton
| Obj (o : pyobj).

(** [class PickupEvent]; the type is [PickupEvent.t] and [PickupEvent.new]
    is [__init__]. *)
Module PickupEvent.
Record t : Type := {
  base_dir : option string;
  file_name : option string;
  full_path : option string;
  stanza : option string;
  ts_utc : option string;
  raw_data : string;
  data : data_field;
  has_raw_data : bool;
  has_data : bool;
  parse_error : option exn
}.

Definition new : t :=
  {| base_dir := None; file_name := None; full_path := None;
     stanza := None; ts_utc := None; raw_data := ""; data := _singleton;
     has_raw_data := false; has_data := false; parse_error := None |}.

Definition set_base_dir (v : string) (pe : t) : t :=
  {| base_dir := Some v; file_name := file_name pe; full_path := full_path pe;
     stanza := stanza pe; ts_utc := ts_utc pe; raw_data := raw_data pe;
     data := data pe; has_raw_data := has_raw_data pe;
     has_data := has_data pe; parse_error := parse_error pe |}.

Definition set_file_name (v : string) (pe : t) : t :=
  {| base_dir := base_dir pe; file_name := Some v; full_path := full_path pe;
     stanza := stanza pe; ts_utc := ts_utc pe; raw_data := raw_data pe;
     data := data pe; has_raw_data := has_raw_data pe;
     has_data := has_data pe; parse_error := parse_error pe |}.

Definition set_stanza (v : string) (pe : t) : t :=
  {| base_dir := base_dir pe; file_name := file_name pe; full_path := full_path pe;
     stanza := Some v; ts_utc := ts_utc pe; raw_data := raw_data pe;
     data := data pe; has_raw_data := has_raw_data pe;
     has_data := has_data pe; parse_error := parse_error pe |}.

Definition set_full_path (v : string) (pe : t) : t :=
  {| base_dir := base_dir pe; file_name := file_name pe; full_path := Some v;
     stanza := stanza pe; ts_utc := ts_utc pe; raw_data := raw_data pe;
     data := data pe; has_raw_data := has_raw_data pe;
     has_data := has_data pe; parse_error := parse_error pe |}.

Definition set_raw_data (v : string) (pe : t) : t :=
  {| base_dir := base_dir pe; file_name := file_name pe; full_path := full_path pe;
     stanza := stanza pe; ts_utc := ts_utc pe; raw_data := v;
     data := data pe; has_raw_data := has_raw_data pe;
     has_data := has_data pe; parse_error := parse_error pe |}.

Definition set_has_raw_data (v : bool) (pe : t) : t :=
  {| base_dir := base_dir pe; file_name := file_name pe; full_path := full_path pe;
     stanza := stanza pe; ts_utc := ts_utc pe; raw_data := raw_data pe;
     data := data pe; has_raw_data := v;
     has_data := has_data pe; parse_error := parse_error pe |}.

Definition set_data (v : pyobj) (pe : t) : t :=
  {| base_dir := base_dir pe; file_name := file_name pe; full_path := full_path pe;
     stanza := stanza pe; ts_utc := ts_utc pe; raw_data := raw_data pe;
     data := Obj v; has_raw_data := has_raw_data pe;
     has_data := has_data pe; parse_error := parse_error pe |}.

Definition set_has_data (v : bool) (pe : t) : t :=
  {| base_dir := base_dir pe; file_name := file_name pe; full_path := full_path pe;
     stanza := stanza pe; ts_utc := ts_utc pe; raw_data := raw_data pe;
     data := data pe; has_raw_data := has_raw_data pe;
     has_data := v; parse_error := parse_error pe |}.

Definition set_parse_error (v : exn) (pe : t) : t :=
  {| base_dir := base_dir pe; file_name := file_name pe; full_path := full_path pe;
     stanza := stanza pe; ts_utc := ts_utc pe; raw_data := raw_data pe;
     data := data pe; has_raw_data := has_raw_data pe;
     has_data := has_data pe; parse_error := Some v |}.
End PickupEvent.

(** The [request] dictionary [invoke_callbacks] builds, one field per key. *)
Module Request.
Record t : Type := {
  base_dir : option string;
  file_name : option string;
  full_path : option string;
  stanza : option string;
  ts_utc : string;
  raw_data : string;
  data : pyobj;
  has_raw_data : bool;
  has_data : bool;
  parse_error : option exn
}.
End Request.

(** One entry of [callback_config]: the options of a stanza, keyed by the
    directory it picks files up from. *)
Module Config.
Record t : Type := {
  stanza : string;
  pickup_from : string;
  patterns : list Pattern;
  read_on_pickup : bool;
  parse_on_pickup : bool;
  parse_with : string;
  is_service_hot_deploy : bool;
  delete_after_pick_up : bool;
  move_processed_to : option string;
  recipients : list string
}.

Definition set_stanza (v : string) (c : t) : t :=
  {| stanza := v; pickup_from := pickup_from c; patterns := patterns c;
     read_on_pickup := read_on_pickup c; parse_on_pickup := parse_on_pickup c;
     parse_with := parse_with c;
     is_service_hot_deploy := is_service_hot_deploy c;
     delete_after_pick_up := delete_after_pick_up c;
     move_processed_to := move_processed_to c; recipients := recipients c |}.
End Config.

(** An inotify event: the watch descriptor it came from and the file name. *)
Record Event : Type := { wd : Z; name : string }.

(** What is handed to [spawn_greenlet]: the callable and its arguments. *)
Inductive task : Type :=
| HotDeploy (file_name full_path : string) (delete_after_pick_up : bool)
| InvokeCallbacks (pickup_event : PickupEvent.t) (recipients : list string)
| ServerInvoke (recipient : string) (request : Request.t).

(** The calls the module makes outside itself. *)
Inductive call : Type :=
| c_logger_warning (msg : string)
| c_logger_warn (e : exn)
| c_infx_init
| c_os_path_exists (path : string)
| c_infx_add_watch (fd : Z) (path : string)
| c_infx_get_events (fd : Z)
| c_pattern_match (pattern : Pattern) (name : string)
| c_open (path : string)
| c_read (f : N)
| c_close (f : N)
| c_import_module (module_path : string)
| c_getattr (module : N) (attr : string)
| c_call_parser (parser : N) (raw_data : string)
| c_utcnow
| c_spawn_greenlet (t : task)
| c_shutil_copy (src dst : string)
| c_os_remove (path : string).

(** The environment: what each outside call answers after a given history of
    calls.  Files, modules and callables are named by object identities.
    [infx_available] says whether [gevent_inotifyx] could be imported, and
    [pattern_match p name] is the truth value of [p.match(name)], which for
    a compiled pattern depends on nothing else. *)
Record Env : Type := {
  infx_available : bool;
  pattern_match : Pattern -> string -> bool;
  infx_init : list call -> result Z;
  os_path_exists : list call -> string -> bool;
  infx_add_watch : list call -> Z -> string -> result Z;
  infx_get_events : list call -> Z -> result (list Event);
  py_open : list call -> string -> result N;
  file_read : list call -> N -> result string;
  file_close : list call -> N -> result unit;
  import_module : list call -> string -> result N;
  py_getattr : list call -> N -> string -> result N;
  call_parser : list call -> N -> string -> result pyobj;
  utcnow_isoformat : list call -> string;
  spawn_greenlet : list call -> task -> result unit;
  shutil_copy : list call -> string -> string -> result unit;
  os_remove : list call -> string -> result unit
}.

(** The attributes of a [PickupManager]. *)
Record PickupManager : Type := {
  keep_running : bool;
  watchers : list Z;
  _parser_cache : gmap string N;
  wd_to_path : gmap Z string;
  callback_config : gmap string Config.t;
  infx_fd : option Z
}.

Definition set_keep_running (v : bool) (self : PickupManager) : PickupManager :=
  {| keep_running := v; watchers := watchers self;
     _parser_cache := _parser_cache self; wd_to_path := wd_to_path self;
     callback_config := callback_config self; infx_fd := infx_fd self |}.

Definition set_parser_cache (v : gmap string N) (self : PickupManager) : PickupManager :=
  {| keep_running := keep_running self; watchers := watchers self;
     _parser_cache := v; wd_to_path := wd_to_path self;
     callback_config := callback_config self; infx_fd := infx_fd self |}.

Definition set_wd_to_path (v : gmap Z string) (self : PickupManager) : PickupManager :=
  {| keep_running := keep_running self; watchers := watchers self;
     _parser_cache := _parser_cache self; wd_to_path := v;
     callback_config := callback_config self; infx_fd := infx_fd self |}.

Definition set_infx_fd (v : Z) (self : PickupManager) : PickupManager :=
  {| keep_running := keep_running self; watchers := watchers self;
     _parser_cache := _parser_cache self; wd_to_path := wd_to_path self;
     callback_config := callback_config self; infx_fd := Some v |}.

(** [PickupManager.__init__]: [config] is the list of the items of the
    configuration dictionary, each section carrying every option.  A later
    stanza of the same directory updates the entry of an earlier one. *)
Definition PickupManager_init (config : list (string * Config.t)) : PickupManager :=
  {| keep_running := true;
     watchers := [];
     _parser_cache := ∅;
     wd_to_path := ∅;
     callback_config :=
       foldl (fun cc item =>
                <[Config.pickup_from item.2 := Config.set_stanza item.1 item.2]> cc)
             ∅ config;
     infx_fd := None |}.

(** ** The monad of the methods

    A method runs on the manager's attributes and on the history of the
    outside calls made so far; it returns or raises, and in either case
    leaves a state behind. *)

Record St : Type := { self : PickupManager; hist : list call }.

Definition M (A : Type) : Type := St -> result A * St.

Definition ret {A} (a : A) : M A := fun st => (Ok a, st).

Definition raise {A} (e : exn) : M A := fun st => (Raise e, st).

Definition bind {A B} (m : M A) (k : A -> M B) : M B :=
  fun st =>
    match m st with
    | (Ok a, st') => k a st'
    | (Raise e, st') => (Raise e, st')
    end.

Notation "x <- c ;; k" := (bind c (fun x => k))
  (at level 100, c at next level, right associativity).
Notation "c ;; k" := (bind c (fun _ => k))
  (at level 100, right associativity).

(** Read an attribute of [self]. *)
Definition gets {A} (f : PickupManager -> A) : M A :=
  fun st => (Ok (f (self st)), st).

(** Assign to an attribute of [self]. *)
Definition modify (f : PickupManager -> PickupManager) : M unit :=
  fun st => (Ok tt, {| self := f (self st); hist := hist st |}).

(** An outside call: the oracle answers on the history so far, and the call
    joins the history. *)
Definition extern {A} (c : call) (oracle : list call -> result A) : M A :=
  fun st => (oracle (hist st), {| self := self st; hist := hist st ++ [c] |}).

(** [try: m except <classes>, e: handler(e)]: the handler runs in the state
    the body left when it raised. *)
Definition try_except {A} (catches : exn -> bool) (m : M A) (handler : exn -> M A) : M A :=
  fun st =>
    match m st with
    | (Ok a, st') => (Ok a, st')
    | (Raise e, st') => if catches e then handler e st' else (Raise e, st')
    end.

(** [d[k]] on a dictionary: [KeyError(k)] when the key is absent. *)
Definition getitem {K V} `{Countable K} (d : gmap K V) (k : K) (repr : pyobj) : M V :=
  match d !! k with
  | Some v => ret v
  | None => raise (Exn KeyError repr)
  end.

(** [Exception('Path does not exist `{}`'.format(path))], the error line 164
    raises. *)
Definition path_does_not_exist (path : string) : exn :=
  Exn PlainException (PyStr ("Path does not exist `" +:+ path +:+ "`")).

(** [NotImplementedError('Not implemented in current version')] *)
Definition not_implemented : exn :=
  Exn NotImplementedError (PyStr "Not implemented in current version").

(** What [run] can be observed to have done within a bound on the number of
    polls: it returned, or it is still polling. *)
Inductive run_status : Type := Returned | StillRunning.

(** ** The methods of [PickupManager] *)

Section Methods.
Variable env : Env.

Definition logger_warning (msg : string) : M unit :=
  extern (c_logger_warning msg) (fun _ => Ok tt).

(** [logger.warn(format_exc(e))] *)
Definition logger_warn (e : exn) : M unit :=
  extern (c_logger_warn e) (fun _ => Ok tt).

Definition do_spawn_greenlet (t : task) : M unit :=
  extern (c_spawn_greenlet t) (fun h => spawn_greenlet env h t).

Definition get_py_parser (name : string) : M N :=
  let parts := split "."%char name in
  let module_path := join "." (but_last parts) in
  let callable_name := last_part parts in
  module <- extern (c_import_module module_path)
                   (fun h => import_module env h module_path) ;;
  extern (c_getattr module callable_name)
         (fun h => py_getattr env h module callable_name).

Definition get_service_parser (name : string) : M N :=
  raise not_implemented.

Definition get_parser (parser_name : string) : M N :=
  cache <- gets _parser_cache ;;
  match cache !! parser_name with
  | Some parser => ret parser
  | None =>
      match split ":"%char (strip parser_name) with
      | [type; name] =>
          parser <- (if String.eqb type "py" then get_py_parser name
                     else get_service_parser name) ;;
          modify (fun self =>
                    set_parser_cache (<[parser_name := parser]> (_parser_cache self)) self) ;;
          ret parser
      | [_] => raise (Exn ValueError (PyStr "need more than 1 value to unpack"))
      | _ => raise (Exn ValueError (PyStr "too many values to unpack"))
      end
  end.

(** The method returns [True] from inside the loop and falls off its end
    otherwise, which returns [None]. *)
Fixpoint should_pick_up (name : string) (patterns : list Pattern) : M pyobj :=
  match patterns with
  | [] => ret PyNone
  | pattern :: rest =>
      m <- extern (c_pattern_match pattern name)
                  (fun _ => Ok (pattern_match env pattern name)) ;;
      if (m : bool) then ret (PyBool true) else should_pick_up name rest
  end.

Definition build_request (pickup_event : PickupEvent.t) (now : string) : Request.t :=
  {| Request.base_dir := PickupEvent.base_dir pickup_event;
     Request.file_name := PickupEvent.file_name pickup_event;
     Request.full_path := PickupEvent.full_path pickup_event;
     Request.stanza := PickupEvent.stanza pickup_event;
     Request.ts_utc := now;
     Request.raw_data := PickupEvent.raw_data pickup_event;
     Request.data := match PickupEvent.data pickup_event with
                     | _singleton => PyNone
                     | Obj o => o
                     end;
     Request.has_raw_data := PickupEvent.has_raw_data pickup_event;
     Request.has_data := PickupEvent.has_data pickup_event;
     Request.parse_error := PickupEvent.parse_error pickup_event |}.

Fixpoint invoke_recipients (recipients : list string) (request : Request.t) : M unit :=
  match recipients with
  | [] => ret tt
  | recipient :: rest =>
      do_spawn_greenlet (ServerInvoke recipient request) ;;
      invoke_recipients rest request
  end.

Definition invoke_callbacks (pickup_event : PickupEvent.t) (recipients : list string) : M unit :=
  now <- extern c_utcnow (fun h => Ok (utcnow_isoformat env h)) ;;
  let request := build_request pickup_event now in
  try_except is_Exception
    (invoke_recipients recipients request)
    (fun e => logger_warn e).

(** [if config.move_processed_to:] on an optional string. *)
Definition move_target (config : Config.t) : option string :=
  match Config.move_processed_to config with
  | Some dst => if String.eqb dst "" then None else Some dst
  | None => None
  end.

Definition post_handle (full_path : string) (config : Config.t) : M unit :=
  match move_target config with
   | Some dst =>
       extern (c_shutil_copy full_path dst) (fun h => shutil_copy env h full_path dst)
   | None => ret tt
   end ;;
  if Config.delete_after_pick_up config
  then extern (c_os_remove full_path) (fun h => os_remove env h full_path)
  else ret tt.

(** Lines 194 to 197 of [run]: open, read, flag, close. *)
Definition read_file (full_path : string) (pe : PickupEvent.t) : M PickupEvent.t :=
  f <- extern (c_open full_path) (fun h => py_open env h full_path) ;;
  raw <- extern (c_read f) (fun h => file_read env h f) ;;
  let pe := PickupEvent.set_raw_data raw pe in
  let pe := PickupEvent.set_has_raw_data true pe in
  extern (c_close f) (fun h => file_close env h f) ;;
  ret pe.

(** The body of the inner [try] (lines 202 and 203): [pe.data] and
    [pe.has_data] are assigned only when both the resolution and the call
    returned. *)
Definition parse_body (config : Config.t) (pe : PickupEvent.t) : M PickupEvent.t :=
  parser <- get_parser (Config.parse_with config) ;;
  d <- extern (c_call_parser parser (PickupEvent.raw_data pe))
              (fun h => call_parser env h parser (PickupEvent.raw_data pe)) ;;
  ret (PickupEvent.set_has_data true (PickupEvent.set_data d pe)).

(** Lines 201 to 205. *)
Definition parse (config : Config.t) (pe : PickupEvent.t) : M PickupEvent.t :=
  try_except is_Exception
    (parse_body config pe)
    (fun e => ret (PickupEvent.set_parse_error e pe)).

(** Lines 192 to 208. *)
Definition read_and_parse (full_path : string) (config : Config.t) (pe : PickupEvent.t)
  : M PickupEvent.t :=
  if Config.read_on_pickup config then
    pe <- read_file full_path pe ;;
    if Config.parse_on_pickup config then parse config pe
    else ret (PickupEvent.set_data (PyStr (PickupEvent.raw_data pe)) pe)
  else ret pe.

(** Lines 183 to 211, what [run] does with an event that qualified.
    [full_path] is the value just stored in [pe.full_path]; [continue] is
    a return. *)
Definition dispatch (event : Event) (base_dir : string) (config : Config.t)
    (pe : PickupEvent.t) : M unit :=
  let pe := PickupEvent.set_file_name (name event) pe in
  let pe := PickupEvent.set_stanza (Config.stanza config) pe in
  let full_path := os_path_join base_dir (name event) in
  let pe := PickupEvent.set_full_path full_path pe in
  if Config.is_service_hot_deploy config then
    do_spawn_greenlet
      (HotDeploy (name event) full_path (Config.delete_after_pick_up config))
  else
    pe <- read_and_parse full_path config pe ;;
    do_spawn_greenlet (InvokeCallbacks pe (Config.recipients config)) ;;
    post_handle full_path config.

(** The body of the per-event [try] (lines 177 to 211). *)
Definition handle_event (event : Event) : M unit :=
  let pe := PickupEvent.new in
  wd_to_path_ <- gets wd_to_path ;;
  base_dir <- getitem wd_to_path_ (wd event) (PyInt (wd event)) ;;
  let pe := PickupEvent.set_base_dir base_dir pe in
  callback_config_ <- gets callback_config ;;
  config <- getitem callback_config_ base_dir (PyStr base_dir) ;;
  picked <- should_pick_up (name event) (Config.patterns config) ;;
  if negb (truthy picked) then ret tt
  else dispatch event base_dir config pe.

(** The per-event guard (lines 175 and 213 to 214). *)
Definition guarded_event (event : Event) : M unit :=
  try_except is_Exception (handle_event event) (fun e => logger_warn e).

(** [for event in events:] *)
Fixpoint process_events (events : list Event) : M unit :=
  match events with
  | [] => ret tt
  | event :: rest => guarded_event event ;; process_events rest
  end.

(** One turn of the [while] loop (lines 169 to 217). *)
Definition poll (fd : Z) : M unit :=
  try_except is_KeyboardInterrupt
    (events <- extern (c_infx_get_events fd) (fun h => infx_get_events env h fd) ;;
     process_events events)
    (fun _ => modify (set_keep_running false)).

(** [while self.keep_running:], for at most [fuel] turns. *)
Fixpoint main_loop (fuel : nat) (fd : Z) : M run_status :=
  keep_running_ <- gets keep_running ;;
  if negb keep_running_ then ret Returned
  else match fuel with
       | O => ret StillRunning
       | S fuel' => poll fd ;; main_loop fuel' fd
       end.

(** [for path in self.callback_config:] (lines 162 to 166). *)
Fixpoint watch_setup (fd : Z) (paths : list string) : M unit :=
  match paths with
  | [] => ret tt
  | path :: rest =>
      exists_ <- extern (c_os_path_exists path)
                        (fun h => Ok (os_path_exists env h path)) ;;
      (if negb exists_ then raise (path_does_not_exist path) else ret tt) ;;
      wd_ <- extern (c_infx_add_watch fd path) (fun h => infx_add_watch env h fd path) ;;
      modify (fun self => set_wd_to_path (<[wd_ := path]> (wd_to_path self)) self) ;;
      watch_setup fd rest
  end.

(** The keys of [callback_config] in the order the dictionary yields them.
    A Python dictionary promises no order; [watch_setup] is defined, and its
    properties are proved, for the keys in any order. *)
Definition watched_paths (self : PickupManager) : list string :=
  (map_to_list (callback_config self)).*1.

Definition run (fuel : nat) : M run_status :=
  if negb (infx_available env) then
    logger_warning "inotify not available, pickup disabled" ;;
    ret Returned
  else
    fd <- extern c_infx_init (fun h => infx_init env h) ;;
    modify (set_infx_fd fd) ;;
    try_except is_Exception
      (paths <- gets watched_paths ;;
       watch_setup fd paths ;;
       main_loop fuel fd)
      (fun e => logger_warn e ;; ret Returned).
End Methods.

(** ** Vocabulary of the statements *)

(** The state after further outside calls. *)
Definition log (cs : list call) (st : St) : St :=
  {| self := self st; hist := hist st ++ cs |}.

(** "At least one pattern of the set matches the file name." *)
Definition qualifies (env : Env) (name : string) (patterns : list Pattern) : bool :=
  existsb (fun p => pattern_match env p name) patterns.

(** The patterns a short-circuiting search consults: those before the first
    match, and the first match. *)
Fixpoint tried (env : Env) (name : string) (patterns : list Pattern) : list Pattern :=
  match patterns with
  | [] => []
  | p :: rest => if pattern_match env p name then [p] else p :: tried env name rest
  end.

(** The state in which [run] leaves the pattern check of an event. *)
Definition after_match (env : Env) (event : Event) (config : Config.t) (st : St) : St :=
  log (map (fun p => c_pattern_match p (name event))
           (tried env (name event) (Config.patterns config))) st.

(** The occurrence as it stands at line 186, before the handling path is
    chosen. *)
Definition occurrence (event : Event) (base_dir : string) (config : Config.t) : PickupEvent.t :=
  PickupEvent.set_full_path (os_path_join base_dir (name event))
    (PickupEvent.set_stanza (Config.stanza config)
       (PickupEvent.set_file_name (name event)
          (PickupEvent.set_base_dir base_dir PickupEvent.new))).

(** The number of polls of the event source in a history. *)
Definition is_poll (c : call) : bool :=
  match c with
  | c_infx_get_events _ => true
  | _ => false
  end.

Definition polls (h : list call) : nat := length (List.filter is_poll h).

(** The pieces of the manager's code that can run between two resolutions
    of a parser. *)
Inductive step : Type :=
| s_get_parser (parser_name : string)
| s_handle_event (event : Event)
| s_process_events (events : list Event)
| s_poll (fd : Z)
| s_invoke_callbacks (pickup_event : PickupEvent.t) (recipients : list string)
| s_post_handle (full_path : string) (config : Config.t)
| s_run (fuel : nat).

(** The state a step leaves, whether it returned or raised. *)
Definition exec (env : Env) (s : step) (st : St) : St :=
  match s with
  | s_get_parser parser_name => (get_parser env parser_name st).2
  | s_handle_event event => (handle_event env event st).2
  | s_process_events events => (process_events env events st).2
  | s_poll fd => (poll env fd st).2
  | s_invoke_callbacks pe recipients => (invoke_callbacks env pe recipients st).2
  | s_post_handle full_path config => (post_handle env full_path config st).2
  | s_run fuel => (run env fuel st).2
  end.

(** Steps in sequence, each in an environment of its own. *)
Definition exec_all (steps : list (Env * step)) (st : St) : St :=
  foldl (fun st es => exec es.1 es.2 st) st steps.

(** The keys of the parser cache are identifiers of the [py] namespace. *)
Definition cache_wf (st : St) : Prop :=
  forall k v, _parser_cache (self st) !! k = Some v ->
    exists name, split ":"%char (strip k) = ["py"; name].

(** A state of a manager that has just been constructed. *)
Definition initial (config : list (string * Config.t)) (h : list call) : St :=
  {| self := PickupManager_init config; hist := h |}.

(** The cache of the state after holds the cache of the state before, and
    its keys are [py] identifiers if they were. *)
Definition cache_grows (st st' : St) : Prop :=
  _parser_cache (self st) ⊆ _parser_cache (self st') /\
  (cache_wf st -> cache_wf st').

(** A computation respects a relation between states when the state it
    leaves, returning or raising, is related to the state it started in. *)
Definition preserves (R : St -> St -> Prop) {A} (m : M A) : Prop :=
  forall st, R st (m st).2.

(** The outside calls [read_file] makes. *)
Definition is_file_call (c : call) : bool :=
  match c with
  | c_open _ | c_read _ | c_close _ => true
  | _ => false
  end.

(** The units of work handed to [spawn_greenlet] in a history. *)
Fixpoint spawned (h : list call) : list task :=
  match h with
  | [] => []
  | c_spawn_greenlet t :: rest => t :: spawned rest
  | _ :: rest => spawned rest
  end.

(** ** A small installation

    One stanza, [inbox], picks [a.txt] up from [/in]; the parser
    [json.loads] is importable.  The switches say whether the directory
    exists, whether the file can be opened, whether the archival copy works
    and whether the parser accepts the content. *)
Module Example.
Definition inbox (read parse hot : bool) : Config.t :=
  {| Config.stanza := "";
     Config.pickup_from := "/in";
     Config.patterns := [2%N; 1%N; 3%N];
     Config.read_on_pickup := read;
     Config.parse_on_pickup := parse;
     Config.parse_with := "py:json.loads";
     Config.is_service_hot_deploy := hot;
     Config.delete_after_pick_up := true;
     Config.move_processed_to := Some "/archive";
     Config.recipients := ["pickup.log"; "pickup.update"] |}.

Definition no_such_file : exn :=
  Exn IOError (PyStr "[Errno 2] No such file or directory").

Definition bad_json : exn :=
  Exn ValueError (PyStr "No JSON object could be decoded").

Definition world (dir_exists file_opens copy_works parser_works : bool) : Env :=
  {| infx_available := true;
     pattern_match := fun p file_name => N.eqb p 1 && String.eqb file_name "a.txt";
     infx_init := fun _ => Ok 3;
     os_path_exists := fun _ _ => dir_exists;
     infx_add_watch := fun _ _ _ => Ok 1;
     infx_get_events := fun h _ =>
       if Nat.eqb (polls h) 0
       then Ok [{| wd := 1; name := "a.txt" |}; {| wd := 1; name := "b.txt" |}]
       else Raise (Exn KeyboardInterrupt PyNone);
     py_open := fun _ _ => if file_opens then Ok 7%N else Raise no_such_file;
     file_read := fun _ _ => Ok "[1, 2]";
     file_close := fun _ _ => Ok tt;
     import_module := fun _ module_path =>
       if String.eqb module_path "json" then Ok 11%N
       else Raise (Exn ImportError (PyStr ("No module named " +:+ module_path)));
     py_getattr := fun _ _ attr =>
       if String.eqb attr "loads" then Ok 12%N
       else Raise (Exn AttributeError (PyStr attr));
     call_parser := fun _ _ _ => if parser_works then Ok (PyObject 40) else Raise bad_json;
     utcnow_isoformat := fun _ => "2016-03-01T10:00:00";
     spawn_greenlet := fun _ _ => Ok tt;
     shutil_copy := fun _ _ _ => if copy_works then Ok tt else Raise no_such_file;
     os_remove := fun _ _ => Ok tt |}.

(** The environments of the examples: all is well; the directory is
    missing; the file has vanished; the archive cannot be written; the
    parser rejects the content; the module of the parser is gone. *)
Definition calm : Env := world true true true true.
Definition no_dir : Env := world false true true true.
Definition no_file : Env := world true false true true.
Definition no_archive : Env := world true true false true.
Definition unimportable : Env :=
  {| infx_available := true;
     pattern_match := pattern_match calm;
     infx_init := infx_init calm;
     os_path_exists := os_path_exists calm;
     infx_add_watch := infx_add_watch calm;
     infx_get_events := infx_get_events calm;
     py_open := py_open calm;
     file_read := file_read calm;
     file_close := file_close calm;
     import_module := fun _ module_path =>
       Raise (Exn ImportError (PyStr ("No module named " +:+ module_path)));
     py_getattr := py_getattr calm;
     call_parser := call_parser calm;
     utcnow_isoformat := utcnow_isoformat calm;
     spawn_greenlet := spawn_greenlet calm;
     shutil_copy := shutil_copy calm;
     os_remove := os_remove calm |}.

(** The stanza as read and passed on, as read and parsed, and as a
    directory of services to deploy. *)
Definition plain : Config.t := inbox true false false.
Definition parsed : Config.t := inbox true true false.
Definition services : Config.t := inbox true true true.

(** The entry [__init__] stores for a stanza. *)
Definition installed (config : Config.t) : Config.t := Config.set_stanza "inbox" config.

(** The manager as [__init__] leaves it. *)
Definition fresh (config : Config.t) : St := initial [("inbox", config)] [].

(** The manager once the watch on [/in] is registered. *)
Definition watching (config : Config.t) : St :=
  {| self := set_wd_to_path (<[1 := "/in"]> ∅) (self (fresh config)); hist := [] |}.

Definition a_txt : Event := {| wd := 1; name := "a.txt" |}.

(** The occurrence of [a.txt] once it has been read. *)
Definition a_txt_read (config : Config.t) : PickupEvent.t :=
  PickupEvent.set_has_raw_data true
    (PickupEvent.set_raw_data "[1, 2]" (occurrence a_txt "/in" (installed config))).

(** The state once [a.txt] has been matched and read. *)
Definition after_read (config : Config.t) : St :=
  log [c_pattern_match 2%N "a.txt"; c_pattern_match 1%N "a.txt";
       c_open "/in/a.txt"; c_read 7%N; c_close 7%N] (watching config).

(** Steps between two resolutions: a batch handled, a failed attempt. *)
Definition interlude : list (Env * step) :=
  [(calm, s_process_events [a_txt]); (calm, s_get_parser "zato:my.parser")].
End Example.

(** ** Further vocabulary *)

(** The character occurs in the string. *)
Fixpoint has_char (c : ascii) (s : string) : bool :=
  match s with
  | EmptyString => false
  | String c' s' => Ascii.eqb c' c || has_char c s'
  end.

(** The attributes of the manager that handling events leaves alone: all
    but the parser cache. *)
Definition same_but_cache (st st' : St) : Prop :=
  keep_running (self st') = keep_running (self st) /\
  watchers (self st') = watchers (self st) /\
  wd_to_path (self st') = wd_to_path (self st) /\
  callback_config (self st') = callback_config (self st) /\
  infx_fd (self st') = infx_fd (self st).

(** Every registered watch descriptor stands for a configured directory. *)
Definition registry_wf (st : St) : Prop :=
  forall w p, wd_to_path (self st) !! w = Some p ->
    is_Some (callback_config (self st) !! p).

(** The configuration is as it was, and the registry is well-formed if it
    was. *)
Definition registry_kept (st st' : St) : Prop :=
  callback_config (self st') = callback_config (self st) /\
  (registry_wf st -> registry_wf st').

(** What can be said of an occurrence handed to the recipients, whatever
    the path it took through lines 177 to 210. *)
Definition wellformed_occurrence (event : Event) (base_dir : string) (config : Config.t)
    (pe : PickupEvent.t) : Prop :=
  PickupEvent.base_dir pe = Some base_dir /\
  PickupEvent.file_name pe = Some (name event) /\
  PickupEvent.full_path pe = Some (os_path_join base_dir (name event)) /\
  PickupEvent.stanza pe = Some (Config.stanza config) /\
  PickupEvent.ts_utc pe = None /\
  PickupEvent.has_raw_data pe = Config.read_on_pickup config /\
  (PickupEvent.has_raw_data pe = false ->
     PickupEvent.raw_data pe = "" /\ PickupEvent.data pe = _singleton /\
     PickupEvent.has_data pe = false /\ PickupEvent.parse_error pe = None) /\
  (PickupEvent.has_data pe = true ->
     Config.parse_on_pickup config = true /\ PickupEvent.parse_error pe = None /\
     PickupEvent.data pe <> _singleton) /\
  (PickupEvent.parse_error pe <> None ->
     Config.parse_on_pickup config = true /\ PickupEvent.has_data pe = false /\
     PickupEvent.data pe = _singleton) /\
  (PickupEvent.has_raw_data pe = true -> Config.parse_on_pickup config = false ->
     PickupEvent.data pe = Obj (PyStr (PickupEvent.raw_data pe)) /\
     PickupEvent.has_data pe = false /\ PickupEvent.parse_error pe = None).

(** The requests-to-be of a list of recipients, as calls. *)
Definition invocations (request : Request.t) (recipients : list string) : list call :=
  map (fun r => c_spawn_greenlet (ServerInvoke r request)) recipients.

(** The calls of a watch set-up that goes through. *)
Definition setup_calls (fd : Z) (paths : list string) : list call :=
  concat (map (fun p => [c_os_path_exists p; c_infx_add_watch fd p]) paths).

(** ** Further scenes of the small installation *)
Module Scene.
(** The stanza with neither read nor parse. *)
Definition bare : Config.t := Example.inbox false false false.

Definition interrupt : exn := Exn KeyboardInterrupt PyNone.

Definition b_txt : Event := {| wd := 1; name := "b.txt" |}.

(** An event of a watch nobody registered. *)
Definition stray : Event := {| wd := 9; name := "a.txt" |}.

Definition replace_spawn (spawn : list call -> task -> result unit) (env : Env) : Env :=
  {| infx_available := infx_available env;
     pattern_match := pattern_match env;
     infx_init := infx_init env;
     os_path_exists := os_path_exists env;
     infx_add_watch := infx_add_watch env;
     infx_get_events := infx_get_events env;
     py_open := py_open env;
     file_read := file_read env;
     file_close := file_close env;
     import_module := import_module env;
     py_getattr := py_getattr env;
     call_parser := call_parser env;
     utcnow_isoformat := utcnow_isoformat env;
     spawn_greenlet := spawn;
     shutil_copy := shutil_copy env;
     os_remove := os_remove env |}.

Definition replace_get_events (get_events : list call -> Z -> result (list Event))
    (env : Env) : Env :=
  {| infx_available := infx_available env;
     pattern_match := pattern_match env;
     infx_init := infx_init env;
     os_path_exists := os_path_exists env;
     infx_add_watch := infx_add_watch env;
     infx_get_events := get_events;
     py_open := py_open env;
     file_read := file_read env;
     file_close := file_close env;
     import_module := import_module env;
     py_getattr := py_getattr env;
     call_parser := call_parser env;
     utcnow_isoformat := utcnow_isoformat env;
     spawn_greenlet := spawn_greenlet env;
     shutil_copy := shutil_copy env;
     os_remove := os_remove env |}.

Definition too_many_greenlets : exn := Exn RuntimeError (PyStr "cannot spawn").

(** The recipient [pickup.update] cannot be reached. *)
Definition deaf_recipient : Env :=
  replace_spawn
    (fun _ t => match t with
                | ServerInvoke r _ =>
                    if String.eqb r "pickup.update" then Raise too_many_greenlets else Ok tt
                | _ => Ok tt
                end) Example.calm.

(** No unit of work can be spawned at all. *)
Definition no_greenlets : Env :=
  replace_spawn (fun _ _ => Raise too_many_greenlets) Example.calm.

(** The event source has nothing to report, ever. *)
Definition idle : Env := replace_get_events (fun _ _ => Ok []) Example.calm.

(** The operator interrupts the first poll. *)
Definition interrupted : Env :=
  replace_get_events (fun _ _ => Raise interrupt) Example.calm.

Definition broken_pipe : exn := Exn IOError (PyStr "[Errno 9] Bad file descriptor").

(** The event source fails. *)
Definition broken_source : Env :=
  replace_get_events (fun _ _ => Raise broken_pipe) Example.calm.

(** The operator interrupts while the first event is being read. *)
Definition interrupted_read : Env :=
  {| infx_available := true;
     pattern_match := pattern_match Example.calm;
     infx_init := infx_init Example.calm;
     os_path_exists := os_path_exists Example.calm;
     infx_add_watch := infx_add_watch Example.calm;
     infx_get_events := fun _ _ => Ok [Example.a_txt; Example.a_txt];
     py_open := py_open Example.calm;
     file_read := fun _ _ => Raise interrupt;
     file_close := file_close Example.calm;
     import_module := import_module Example.calm;
     py_getattr := py_getattr Example.calm;
     call_parser := call_parser Example.calm;
     utcnow_isoformat := utcnow_isoformat Example.calm;
     spawn_greenlet := spawn_greenlet Example.calm;
     shutil_copy := shutil_copy Example.calm;
     os_remove := os_remove Example.calm |}.

Definition out_of_watches : exn := Exn OSError (PyStr "[Errno 24] Too many open files").

(** inotify cannot be initialised. *)
Definition no_inotify_instance : Env :=
  {| infx_available := true;
     pattern_match := pattern_match Example.calm;
     infx_init := fun _ => Raise out_of_watches;
     os_path_exists := os_path_exists Example.calm;
     infx_add_watch := infx_add_watch Example.calm;
     infx_get_events := infx_get_events Example.calm;
     py_open := py_open Example.calm;
     file_read := file_read Example.calm;
     file_close := file_close Example.calm;
     import_module := import_module Example.calm;
     py_getattr := py_getattr Example.calm;
     call_parser := call_parser Example.calm;
     utcnow_isoformat := utcnow_isoformat Example.calm;
     spawn_greenlet := spawn_greenlet Example.calm;
     shutil_copy := shutil_copy Example.calm;
     os_remove := os_remove Example.calm |}.

(** The state once the watch on [/in] has been set up by [run]. *)
Definition started (config : Config.t) : St :=
  {| self := set_wd_to_path (<[1 := "/in"]> ∅)
               (set_infx_fd 3 (self (Example.fresh config)));
     hist := [c_infx_init; c_os_path_exists "/in"; c_infx_add_watch 3 "/in"] |}.

(** The occurrence of [a.txt] of the stanza [bare]. *)
Definition a_txt_bare : PickupEvent.t :=
  occurrence Example.a_txt "/in" (Example.installed bare).

(** The state once [a.txt] has been matched. *)
Definition after_patterns (config : Config.t) : St :=
  log [c_pattern_match 2%N "a.txt"; c_pattern_match 1%N "a.txt"] (Example.watching config).




(** Two stanzas on one directory and one on another. *)
Definition three_stanzas : list (string * Config.t) :=
  [("inbox", Example.plain); ("again", Example.parsed);
   ("other", {| Config.stanza := ""; Config.pickup_from := "/other";
                Config.patterns := []; Config.read_on_pickup := false;
                Config.parse_on_pickup := false; Config.parse_with := "";
                Config.is_service_hot_deploy := false;
                Config.delete_after_pick_up := false;
                Config.move_processed_to := None; Config.recipients := [] |})].
End Scene.

(** * Properties *)

(** ** The string helpers, on the inputs the module gives them *)

Example strip_identifier : strip "  py:json.loads " = "py:json.loads".
Proof. reflexivity. Qed.

Example split_identifier : split ":" "py:json.loads" = ["py"; "json.loads"].
Proof. reflexivity. Qed.

Example split_no_colon : split ":" "json.loads" = ["json.loads"].
Proof. reflexivity. Qed.

Example split_two_colons : split ":" "py:json:loads" = ["py"; "json"; "loads"].
Proof. reflexivity. Qed.

Example split_dotted_name :
  join "." (but_last (split "." "zato.util.parse")) = "zato.util" /\
  last_part (split "." "zato.util.parse") = "parse".
Proof. split; reflexivity. Qed.

Example split_undotted_name :
  join "." (but_last (split "." "parse")) = "" /\ last_part (split "." "parse") = "parse".
Proof. split; reflexivity. Qed.

Example os_path_join_examples :
  os_path_join "/in" "a.txt" = "/in/a.txt" /\
  os_path_join "/in/" "a.txt" = "/in/a.txt" /\
  os_path_join "/in" "/tmp/a.txt" = "/tmp/a.txt".
Proof. repeat split; reflexivity. Qed.

Lemma split_not_nil sep s : split sep s <> [].
Proof.
  induction s as [|c s IH]; simpl; [done|].
  destruct (Ascii.eqb c sep); [done|]. by destruct (split sep s).
Qed.

(** ** The monad *)

Lemma log_nil st : log [] st = st.
Proof. destruct st as [s h]. unfold log; simpl. by rewrite app_nil_r. Qed.

Lemma log_log cs1 cs2 st : log cs2 (log cs1 st) = log (cs1 ++ cs2) st.
Proof. unfold log; simpl. by rewrite app_assoc. Qed.

Lemma extern_run {A} (c : call) (oracle : list call -> result A) st :
  extern c oracle st = (oracle (hist st), log [c] st).
Proof. reflexivity. Qed.

Lemma bind_ok {A B} (m : M A) (k : A -> M B) st a st' :
  m st = (Ok a, st') -> bind m k st = k a st'.
Proof. intros Hm. unfold bind. by rewrite Hm. Qed.

Lemma bind_raise {A B} (m : M A) (k : A -> M B) st e st' :
  m st = (Raise e, st') -> bind m k st = (Raise e, st').
Proof. intros Hm. unfold bind. by rewrite Hm. Qed.

Lemma try_except_ok {A} catches (m : M A) handler st a st' :
  m st = (Ok a, st') -> try_except catches m handler st = (Ok a, st').
Proof. intros Hm. unfold try_except. by rewrite Hm. Qed.

Lemma try_except_caught {A} catches (m : M A) handler st e st' :
  m st = (Raise e, st') -> catches e = true ->
  try_except catches m handler st = handler e st'.
Proof. intros Hm Hc. unfold try_except. by rewrite Hm, Hc. Qed.

Lemma try_except_escapes {A} catches (m : M A) handler st e st' :
  m st = (Raise e, st') -> catches e = false ->
  try_except catches m handler st = (Raise e, st').
Proof. intros Hm Hc. unfold try_except. by rewrite Hm, Hc. Qed.

(** ** [should_pick_up] *)

Lemma qualifies_spec env name patterns :
  qualifies env name patterns = true <->
  exists p, p ∈ patterns /\ pattern_match env p name = true.
Proof.
  unfold qualifies. rewrite existsb_exists.
  split; intros (p & Hin & Hm); exists p; split; auto;
    by apply list_elem_of_In.
Qed.

Lemma qualifies_false_spec env name patterns :
  qualifies env name patterns = false <->
  forall p, p ∈ patterns -> pattern_match env p name = false.
Proof.
  rewrite <- not_true_iff_false, qualifies_spec. split.
  - intros Hno p Hin. apply not_true_iff_false. intros Hm. apply Hno. eauto.
  - intros Hall (p & Hin & Hm). rewrite (Hall p Hin) in Hm. discriminate.
Qed.

(** The patterns consulted are a prefix of the set; all of them but the last
    fail to match, and the search goes through the whole set only when it
    has to. *)
Lemma tried_prefix env name patterns :
  exists rest, patterns = tried env name patterns ++ rest /\
    if qualifies env name patterns
    then exists before p, tried env name patterns = before ++ [p] /\
           pattern_match env p name = true /\
           forall q, q ∈ before -> pattern_match env q name = false
    else rest = [] /\ tried env name patterns = patterns.
Proof.
  induction patterns as [|p ps IH]; simpl.
  - exists []. auto.
  - destruct (pattern_match env p name) eqn:Hp; simpl.
    + exists ps. split; [done|]. exists [], p. repeat split; auto.
      intros q Hq. by apply elem_of_nil in Hq.
    + destruct IH as (rest & Heq & IH). exists rest. split.
      { by rewrite <- Heq. }
      destruct (qualifies env name ps).
      * destruct IH as (before & q & Ht & Hq & Hb).
        exists (p :: before), q. rewrite Ht. repeat split; auto.
        intros r Hr. apply elem_of_cons in Hr as [->|Hr]; auto.
      * destruct IH as [-> Ht]. by rewrite Ht.
Qed.

Lemma should_pick_up_run env name patterns st :
  should_pick_up env name patterns st =
  (Ok (if qualifies env name patterns then PyBool true else PyNone),
   log (map (fun p => c_pattern_match p name) (tried env name patterns)) st).
Proof.
  revert st. induction patterns as [|p ps IH]; intros st; simpl.
  - by rewrite log_nil.
  - unfold bind. rewrite extern_run.
    destruct (pattern_match env p name) eqn:Hp; simpl.
    + reflexivity.
    + rewrite IH, log_log. reflexivity.
Qed.

(** C7. For every file name and every pattern set, [should_pick_up] returns
    [True] if and only if at least one pattern of the set matches the name;
    it consults the patterns in order and stops at the first that matches
    (the patterns consulted are a prefix of the set that ends with the
    first match); when nothing matches, and so for the empty set, it falls
    off its loop and returns [None], the false value its caller tests with
    [not]. *)
Theorem should_pick_up_iff_some_pattern_matches :
  forall env name patterns st,
    let r := (should_pick_up env name patterns st).1 in
    let consulted := tried env name patterns in
    (r = Ok (PyBool true) <->
       exists p, p ∈ patterns /\ pattern_match env p name = true) /\
    (r = Ok PyNone <->
       forall p, p ∈ patterns -> pattern_match env p name = false) /\
    (exists o, r = Ok o /\ truthy o = qualifies env name patterns) /\
    (should_pick_up env name patterns st).2 =
       log (map (fun p => c_pattern_match p name) consulted) st /\
    (exists rest, patterns = consulted ++ rest /\
       forall before p after, consulted = before ++ p :: after ->
         pattern_match env p name = true -> after = []) /\
    (forall st', should_pick_up env name [] st' = (Ok PyNone, st')).
Proof.
  intros env name patterns st. simpl.
  rewrite should_pick_up_run. simpl.
  repeat split.
  - intros Hr. apply qualifies_spec.
    destruct (qualifies env name patterns); [done | discriminate].
  - intros Hq. apply qualifies_spec in Hq. by rewrite Hq.
  - intros Hr. apply qualifies_false_spec.
    destruct (qualifies env name patterns); [discriminate | done].
  - intros Hq. apply qualifies_false_spec in Hq. by rewrite Hq.
  - destruct (qualifies env name patterns); eauto.
  - destruct (tried_prefix env name patterns) as (rest & Heq & Hq).
    exists rest. split; [done|].
    intros before p after Hc Hp.
    destruct (qualifies env name patterns) eqn:Hqual.
    + destruct Hq as (before' & p' & Ht & Hp' & Hb).
      rewrite Ht in Hc.
      destruct after as [|a after]; [done|]. exfalso.
      assert (p ∈ before') as Hin.
      { assert (Hlen : length (before' ++ [p']) = length (before ++ p :: a :: after))
          by (by rewrite Hc).
        rewrite !length_app in Hlen. simpl in Hlen.
        assert (before' !! length before = Some p) as Hl.
        { rewrite <- (lookup_app_l before' [p']) by lia.
          rewrite Hc. by rewrite list_lookup_middle. }
        by apply list_elem_of_lookup_2 in Hl. }
      rewrite (Hb p Hin) in Hp. discriminate.
    + pose proof (proj1 (qualifies_false_spec env name patterns) Hqual) as Hnone.
      rewrite (Hnone p) in Hp; [discriminate|].
      rewrite Heq, Hc. rewrite !elem_of_app, elem_of_cons. auto.
Qed.

(** ** What a computation preserves

    A relation between the state before and the state after that outside
    calls and the one assignment to the parser cache respect is respected by
    every method up to the handling of a batch of events; if the
    assignments of the loop respect it too, so does [run]. *)

Section Preservation.
Variable R : St -> St -> Prop.
Hypothesis R_refl : forall st, R st st.
Hypothesis R_trans : forall st1 st2 st3, R st1 st2 -> R st2 st3 -> R st1 st3.
Hypothesis R_log : forall st c, R st (log [c] st).
Hypothesis R_cache : forall st k v name,
  _parser_cache (self st) !! k = None ->
  split ":"%char (strip k) = ["py"; name] ->
  R st {| self := set_parser_cache (<[k := v]> (_parser_cache (self st))) (self st);
          hist := hist st |}.

Lemma preserves_ret {A} (a : A) : preserves R (ret a).
Proof. intros st. apply R_refl. Qed.

Lemma preserves_raise {A} e : preserves R (@raise A e).
Proof. intros st. apply R_refl. Qed.

Lemma preserves_gets {A} (f : PickupManager -> A) : preserves R (gets f).
Proof. intros st. apply R_refl. Qed.

Lemma preserves_extern {A} c (oracle : list call -> result A) :
  preserves R (extern c oracle).
Proof. intros st. apply R_log. Qed.

Lemma preserves_bind {A B} (m : M A) (k : A -> M B) :
  preserves R m -> (forall a, preserves R (k a)) -> preserves R (bind m k).
Proof.
  intros Hm Hk st. unfold bind. specialize (Hm st).
  destruct (m st) as [[a|e] st']; simpl in *; [|done].
  eapply R_trans; [exact Hm | apply Hk].
Qed.

Lemma preserves_try_except {A} catches (m : M A) handler :
  preserves R m -> (forall e, preserves R (handler e)) ->
  preserves R (try_except catches m handler).
Proof.
  intros Hm Hh st. unfold try_except. specialize (Hm st).
  destruct (m st) as [[a|e] st']; simpl in *; [done|].
  destruct (catches e); [|done].
  eapply R_trans; [exact Hm | apply Hh].
Qed.

Lemma preserves_getitem {K V} `{Countable K} (d : gmap K V) k repr :
  preserves R (getitem d k repr).
Proof.
  unfold getitem. destruct (d !! k); [apply preserves_ret | apply preserves_raise].
Qed.

Lemma preserves_logger_warning msg : preserves R (logger_warning msg).
Proof. apply preserves_extern. Qed.

Lemma preserves_logger_warn e : preserves R (logger_warn e).
Proof. apply preserves_extern. Qed.

Lemma preserves_do_spawn_greenlet env t : preserves R (do_spawn_greenlet env t).
Proof. apply preserves_extern. Qed.

Ltac preserve :=
  repeat match goal with
    | |- preserves R (ret _) => apply preserves_ret
    | |- preserves R (raise _) => apply preserves_raise
    | |- preserves R (gets _) => apply preserves_gets
    | |- preserves R (extern _ _) => apply preserves_extern
    | |- preserves R (getitem _ _ _) => apply preserves_getitem
    | |- preserves R (logger_warning _) => apply preserves_logger_warning
    | |- preserves R (logger_warn _) => apply preserves_logger_warn
    | |- preserves R (do_spawn_greenlet _ _) => apply preserves_do_spawn_greenlet
    | |- preserves R (bind _ _) => apply preserves_bind; [|intros ?]
    | |- preserves R (try_except _ _ _) => apply preserves_try_except; [|intros ?]
    | |- preserves R (if ?b then _ else _) => destruct b
    | |- preserves R (match ?x with Some _ => _ | None => _ end) => destruct x
    | H : preserves R ?m |- preserves R ?m => exact H
    end.

Lemma preserves_get_py_parser env name : preserves R (get_py_parser env name).
Proof. unfold get_py_parser. preserve. Qed.

Lemma preserves_get_parser env parser_name : preserves R (get_parser env parser_name).
Proof.
  intros st. unfold get_parser, bind, gets; simpl.
  destruct (_parser_cache (self st) !! parser_name) as [p|] eqn:Hc; [apply R_refl|].
  destruct (split ":" (strip parser_name)) as [|type [|name [|? ?]]] eqn:Hs;
    try apply R_refl.
  destruct (String.eqb_spec type "py") as [->|Hne].
  - pose proof (preserves_get_py_parser env name st) as Hpy.
    destruct (get_py_parser env name st) as [[p|e] st1] eqn:Hg; simpl in *; [|done].
    eapply R_trans; [exact Hpy|].
    unfold ret, modify; simpl.
    assert (_parser_cache (self st1) !! parser_name = None) as Hc1.
    { unfold get_py_parser, bind, extern in Hg; simpl in Hg.
      destruct (import_module env (hist st) _); simpl in Hg;
        [destruct (py_getattr env _ _ _)|]; by simplify_eq. }
    by eapply R_cache.
  - simpl. apply R_refl.
Qed.

Lemma preserves_should_pick_up env name patterns :
  preserves R (should_pick_up env name patterns).
Proof. induction patterns as [|p ps IH]; simpl; preserve. Qed.

Lemma preserves_invoke_recipients env recipients request :
  preserves R (invoke_recipients env recipients request).
Proof. induction recipients as [|r rs IH]; simpl; preserve. Qed.

Lemma preserves_invoke_callbacks env pe recipients :
  preserves R (invoke_callbacks env pe recipients).
Proof. unfold invoke_callbacks. preserve. apply preserves_invoke_recipients. Qed.

Lemma preserves_post_handle env full_path config :
  preserves R (post_handle env full_path config).
Proof. unfold post_handle. preserve. Qed.

Lemma preserves_read_file env full_path pe : preserves R (read_file env full_path pe).
Proof. unfold read_file. preserve. Qed.

Lemma preserves_parse env config pe : preserves R (parse env config pe).
Proof. unfold parse, parse_body. preserve. apply preserves_get_parser. Qed.

Lemma preserves_read_and_parse env full_path config pe :
  preserves R (read_and_parse env full_path config pe).
Proof.
  unfold read_and_parse. preserve;
    first [apply preserves_read_file | apply preserves_parse].
Qed.

Lemma preserves_dispatch env event base_dir config pe :
  preserves R (dispatch env event base_dir config pe).
Proof.
  unfold dispatch. simpl. preserve;
    first [apply preserves_read_and_parse | apply preserves_post_handle].
Qed.

Lemma preserves_handle_event env event : preserves R (handle_event env event).
Proof.
  unfold handle_event. simpl. preserve;
    first [apply preserves_should_pick_up | apply preserves_dispatch].
Qed.

Lemma preserves_guarded_event env event : preserves R (guarded_event env event).
Proof. unfold guarded_event. preserve. apply preserves_handle_event. Qed.

Lemma preserves_process_events env events : preserves R (process_events env events).
Proof.
  induction events as [|ev evs IH]; simpl; preserve.
  apply preserves_guarded_event.
Qed.

(** The assignments of [run] and of its loop. *)
Hypothesis R_modify_keep_running : forall st,
  R st {| self := set_keep_running false (self st); hist := hist st |}.
Hypothesis R_modify_wd_to_path : forall st wd_ path,
  R st {| self := set_wd_to_path (<[wd_ := path]> (wd_to_path (self st))) (self st);
          hist := hist st |}.
Hypothesis R_modify_infx_fd : forall st fd,
  R st {| self := set_infx_fd fd (self st); hist := hist st |}.

Lemma preserves_poll env fd : preserves R (poll env fd).
Proof.
  unfold poll. preserve; [apply preserves_process_events|].
  intros st. apply R_modify_keep_running.
Qed.

Lemma preserves_main_loop env fuel fd : preserves R (main_loop env fuel fd).
Proof.
  induction fuel as [|n IH]; simpl; preserve. apply preserves_poll.
Qed.

Lemma preserves_watch_setup env fd paths : preserves R (watch_setup env fd paths).
Proof.
  induction paths as [|p ps IH]; simpl; preserve.
  intros st. apply R_modify_wd_to_path.
Qed.

Lemma preserves_run env fuel : preserves R (run env fuel).
Proof.
  unfold run. preserve.
  - intros st. apply R_modify_infx_fd.
  - apply preserves_watch_setup.
  - apply preserves_main_loop.
Qed.

Lemma preserves_exec env s st : R st (exec env s st).
Proof.
  destruct s; simpl.
  - apply preserves_get_parser.
  - apply preserves_handle_event.
  - apply preserves_process_events.
  - apply preserves_poll.
  - apply preserves_invoke_callbacks.
  - apply preserves_post_handle.
  - apply preserves_run.
Qed.

Lemma preserves_exec_all steps st : R st (exec_all steps st).
Proof.
  revert st. induction steps as [|[env s] steps IH]; intros st; simpl.
  - apply R_refl.
  - eapply R_trans; [apply preserves_exec | apply IH].
Qed.
End Preservation.

(** ** The parser cache *)

Lemma cache_grows_refl st : cache_grows st st.
Proof. split; [reflexivity | tauto]. Qed.

Lemma cache_grows_trans st1 st2 st3 :
  cache_grows st1 st2 -> cache_grows st2 st3 -> cache_grows st1 st3.
Proof.
  intros [H12 W12] [H23 W23]. split; [by etrans | tauto].
Qed.

Lemma cache_grows_same_cache st st' :
  _parser_cache (self st') = _parser_cache (self st) -> cache_grows st st'.
Proof.
  intros Heq. split; [by rewrite Heq|].
  unfold cache_wf. by rewrite Heq.
Qed.

Lemma cache_grows_insert st k v name :
  _parser_cache (self st) !! k = None ->
  split ":"%char (strip k) = ["py"; name] ->
  cache_grows st
    {| self := set_parser_cache (<[k := v]> (_parser_cache (self st))) (self st);
       hist := hist st |}.
Proof.
  intros Hnone Hsplit. split; simpl.
  - by apply insert_subseteq.
  - intros Hwf k' v'. simpl. rewrite lookup_insert. case_decide as Hk.
    + intros _. subst k'. eauto.
    + apply Hwf.
Qed.

(** Every piece of the manager's code only ever adds to the cache. *)
Lemma exec_cache_grows env s st : cache_grows st (exec env s st).
Proof.
  apply preserves_exec.
  - apply cache_grows_refl.
  - apply cache_grows_trans.
  - intros; by apply cache_grows_same_cache.
  - apply cache_grows_insert.
  - intros; by apply cache_grows_same_cache.
  - intros; by apply cache_grows_same_cache.
  - intros; by apply cache_grows_same_cache.
Qed.

Lemma exec_all_cache_grows steps st : cache_grows st (exec_all steps st).
Proof.
  revert st. induction steps as [|[env s] steps IH]; intros st; simpl.
  - apply cache_grows_refl.
  - eapply cache_grows_trans; [apply exec_cache_grows | apply IH].
Qed.

Lemma initial_cache_wf config h : cache_wf (initial config h).
Proof. intros k v. simpl. by rewrite lookup_empty. Qed.

Lemma get_parser_cached env parser_name st parser :
  _parser_cache (self st) !! parser_name = Some parser ->
  get_parser env parser_name st = (Ok parser, st).
Proof.
  intros Hc. unfold get_parser, bind, gets; simpl. by rewrite Hc.
Qed.

(** The three ways a resolution that is not served from the cache ends. *)
Lemma get_parser_uncached env parser_name st :
  _parser_cache (self st) !! parser_name = None ->
  (exists e, get_parser env parser_name st = (Raise e, st) /\
     forall type name, split ":"%char (strip parser_name) = [type; name] ->
       type <> "py" /\ e = not_implemented) \/
  (exists name e st', split ":"%char (strip parser_name) = ["py"; name] /\
     get_py_parser env name st = (Raise e, st') /\
     get_parser env parser_name st = (Raise e, st') /\ self st' = self st) \/
  (exists name parser st', split ":"%char (strip parser_name) = ["py"; name] /\
     get_py_parser env name st = (Ok parser, st') /\ self st' = self st /\
     get_parser env parser_name st =
       (Ok parser,
        {| self := set_parser_cache (<[parser_name := parser]> (_parser_cache (self st)))
                     (self st);
           hist := hist st' |})).
Proof.
  intros Hc. unfold get_parser, bind, gets; simpl. rewrite Hc.
  destruct (split ":" (strip parser_name)) as [|type [|name [|? ?]]] eqn:Hs;
    try (left; eexists; split; [reflexivity | intros ? ? [=]]).
  destruct (String.eqb_spec type "py") as [->|Hne].
  - right.
    assert (self (get_py_parser env name st).2 = self st) as Hself.
    { unfold get_py_parser, bind, extern; simpl.
      by destruct (import_module env (hist st) _). }
    destruct (get_py_parser env name st) as [[p|e] st1] eqn:Hg; simpl in Hself.
    + right. exists name, p, st1. repeat split; auto.
      unfold modify, ret; simpl. by rewrite Hself.
    + left. exists name, e, st1. auto.
  - left. eexists. split; [reflexivity|].
    intros ? ? [= <- <-]. auto.
Qed.

Lemma get_parser_ok_cached env parser_name st parser st' :
  get_parser env parser_name st = (Ok parser, st') ->
  _parser_cache (self st') !! parser_name = Some parser.
Proof.
  intros Hg.
  destruct (_parser_cache (self st) !! parser_name) as [p|] eqn:Hc.
  - rewrite (get_parser_cached _ _ _ _ Hc) in Hg. by simplify_eq.
  - destruct (get_parser_uncached env parser_name st Hc)
      as [(e & He & _) | [(name & e & st1 & _ & _ & He & _)
                         | (name & p & st1 & _ & _ & _ & Hok)]];
      rewrite Hg in *; simplify_eq.
    simpl. by rewrite lookup_insert_eq.
Qed.



(** C8. When a resolution of a parser identifier succeeds, the callable is
    in the cache under that identifier; if the identifier was not cached
    before, this resolution performed the lookup (one import, one attribute
    access).  From then on, in every state whose cache holds the cache of
    that moment, and so after any further steps of the manager (no step
    ever removes or replaces an entry), in any environment, resolving the
    same identifier returns the same callable and leaves the state, hence
    the history of lookups, as it was. *)
Theorem get_parser_serves_cached_instance :
  forall env parser_name st parser st1,
    get_parser env parser_name st = (Ok parser, st1) ->
    _parser_cache (self st1) !! parser_name = Some parser /\
    (_parser_cache (self st) !! parser_name = None ->
       exists name module,
         split ":"%char (strip parser_name) = ["py"; name] /\
         hist st1 = hist st ++
           [c_import_module (join "." (but_last (split "."%char name)));
            c_getattr module (last_part (split "."%char name))]) /\
    (forall env' st2,
       _parser_cache (self st1) ⊆ _parser_cache (self st2) ->
       get_parser env' parser_name st2 = (Ok parser, st2)) /\
    (forall env' s st2,
       _parser_cache (self st2) ⊆ _parser_cache (self (exec env' s st2))) /\
    (forall steps env',
       get_parser env' parser_name (exec_all steps st1) =
         (Ok parser, exec_all steps st1)).
Proof.
  intros env parser_name st parser st1 Hg.
  pose proof (get_parser_ok_cached _ _ _ _ _ Hg) as Hc1.
  split; [exact Hc1|]. split; [|split; [|split]].
  - intros Hnone.
    destruct (get_parser_uncached env parser_name st Hnone)
      as [(e & He & _) | [(name & e & st' & _ & _ & He & _)
                         | (name & p & st' & Hs & Hpy & _ & Hok)]];
      rewrite Hg in *; simplify_eq.
    unfold get_py_parser, bind, extern in Hpy; simpl in Hpy.
    destruct (import_module env (hist st) _) as [m|e]; simpl in Hpy; [|done].
    exists name, m. split; [done|].
    injection Hpy as _ <-. simpl. by rewrite <- app_assoc.
  - intros env' st2 Hsub. apply get_parser_cached.
    by eapply lookup_weaken.
  - intros env' s st2. apply exec_cache_grows.
  - intros steps env'. apply get_parser_cached.
    eapply lookup_weaken; [exact Hc1 | apply exec_all_cache_grows].
Qed.

(** The identifier [py:json.loads] resolved twice, with a batch of events
    handled in between and the module gone by the second time. *)
Lemma get_parser_serves_cached_instance_witness :
  get_parser Example.calm "py:json.loads" (Example.watching Example.parsed) =
    (Ok 12%N, (get_parser Example.calm "py:json.loads" (Example.watching Example.parsed)).2) /\
  get_parser Example.unimportable "py:json.loads"
    (exec_all Example.interlude
       (get_parser Example.calm "py:json.loads" (Example.watching Example.parsed)).2) =
    (Ok 12%N,
     exec_all Example.interlude
       (get_parser Example.calm "py:json.loads" (Example.watching Example.parsed)).2).
Proof.
  assert (get_parser Example.calm "py:json.loads" (Example.watching Example.parsed) =
    (Ok 12%N, (get_parser Example.calm "py:json.loads" (Example.watching Example.parsed)).2))
    as Hfirst by (vm_compute; reflexivity).
  split; [exact Hfirst|].
  apply (get_parser_serves_cached_instance _ _ _ _ _ Hfirst).
Defined.



(** ** From the event to the handling path *)

Lemma handle_event_unknown_wd env event st :
  wd_to_path (self st) !! wd event = None ->
  handle_event env event st = (Raise (Exn KeyError (PyInt (wd event))), st).
Proof.
  intros Hwd. unfold handle_event, bind, gets, getitem; simpl. by rewrite Hwd.
Qed.

Lemma handle_event_known_wd env event st base_dir config :
  wd_to_path (self st) !! wd event = Some base_dir ->
  callback_config (self st) !! base_dir = Some config ->
  handle_event env event st =
    if qualifies env (name event) (Config.patterns config)
    then dispatch env event base_dir config
           (PickupEvent.set_base_dir base_dir PickupEvent.new)
           (after_match env event config st)
    else (Ok tt, after_match env event config st).
Proof.
  intros Hwd Hcfg. unfold handle_event, bind, gets, getitem; simpl.
  rewrite Hwd; simpl. rewrite Hcfg; simpl.
  rewrite should_pick_up_run. unfold after_match.
  by destruct (qualifies env (name event) (Config.patterns config)).
Qed.

Lemma dispatch_hot_deploy env event base_dir config pe st :
  Config.is_service_hot_deploy config = true ->
  let unit_of_work := HotDeploy (name event) (os_path_join base_dir (name event))
                        (Config.delete_after_pick_up config) in
  dispatch env event base_dir config pe st =
    (spawn_greenlet env (hist st) unit_of_work, log [c_spawn_greenlet unit_of_work] st).
Proof. intros Hhot. unfold dispatch. by rewrite Hhot. Qed.

Lemma dispatch_data env event base_dir config st :
  Config.is_service_hot_deploy config = false ->
  let full_path := os_path_join base_dir (name event) in
  dispatch env event base_dir config
    (PickupEvent.set_base_dir base_dir PickupEvent.new) st =
    (pe <- read_and_parse env full_path config (occurrence event base_dir config) ;;
     do_spawn_greenlet env (InvokeCallbacks pe (Config.recipients config)) ;;
     post_handle env full_path config) st.
Proof. intros Hhot. unfold dispatch. by rewrite Hhot. Qed.

(** C6. For every event that qualifies under a configuration with
    [is_service_hot_deploy] set, the handling of the event makes, after the
    pattern check, exactly one outside call: it spawns one hot-deploy unit
    that carries the event's file name, the full path (the watched
    directory joined with the name) and the delete flag.  Nothing is
    opened, read, parsed, handed to the recipients, copied or removed, and
    the manager is left as it was. *)
Theorem hot_deploy_dispatches_one_unit :
  forall env event st base_dir config,
    wd_to_path (self st) !! wd event = Some base_dir ->
    callback_config (self st) !! base_dir = Some config ->
    qualifies env (name event) (Config.patterns config) = true ->
    Config.is_service_hot_deploy config = true ->
    let unit_of_work :=
      HotDeploy (name event) (os_path_join base_dir (name event))
        (Config.delete_after_pick_up config) in
    let pattern_calls :=
      map (fun p => c_pattern_match p (name event))
          (tried env (name event) (Config.patterns config)) in
    let st' := (handle_event env event st).2 in
    hist st' = hist st ++ pattern_calls ++ [c_spawn_greenlet unit_of_work] /\
    spawned (hist st') = spawned (hist st) ++ [unit_of_work] /\
    self st' = self st /\
    (handle_event env event st).1 =
      spawn_greenlet env (hist st ++ pattern_calls) unit_of_work.
Proof.
  intros env event st base_dir config Hwd Hcfg Hq Hhot.
  rewrite (handle_event_known_wd _ _ _ _ _ Hwd Hcfg), Hq.
  rewrite dispatch_hot_deploy by done. simpl.
  repeat split.
  - by rewrite <- app_assoc.
  - rewrite <- !app_assoc.
    assert (forall h1 h2, spawned (h1 ++ h2) = spawned h1 ++ spawned h2) as Happ.
    { induction h1 as [|[] h1 IH]; intros h2; simpl; rewrite ?IH; done. }
    rewrite !Happ. f_equal.
    induction (tried env (name event) (Config.patterns config)); simpl; auto.
Qed.

(** [a.txt] arriving in a directory of services to deploy. *)
Lemma hot_deploy_dispatches_one_unit_witness :
  hist (handle_event Example.calm Example.a_txt (Example.watching Example.services)).2 =
    [c_pattern_match 2%N "a.txt"; c_pattern_match 1%N "a.txt";
     c_spawn_greenlet (HotDeploy "a.txt" "/in/a.txt" true)].
Proof.
  apply (hot_deploy_dispatches_one_unit Example.calm Example.a_txt
           (Example.watching Example.services) "/in"
           (Example.installed Example.services)).
  - vm_compute. reflexivity.
  - vm_compute. reflexivity.
  - vm_compute. reflexivity.
  - reflexivity.
Defined.

(** ** Reading, parsing and handing over *)

Lemma spawned_app h1 h2 : spawned (h1 ++ h2) = spawned h1 ++ spawned h2.
Proof. induction h1 as [|[] h1 IH]; simpl; rewrite ?IH; done. Qed.

Lemma spawned_pattern_calls file_name patterns :
  spawned (map (fun p => c_pattern_match p file_name) patterns) = [].
Proof. induction patterns; simpl; auto. Qed.

Lemma spawned_file_calls cs :
  Forall (fun c => is_file_call c = true) cs -> spawned cs = [].
Proof. induction 1 as [|[] cs Hc _ IH]; simpl in *; done. Qed.

Lemma read_file_run env full_path pe st :
  read_file env full_path pe st =
  match py_open env (hist st) full_path with
  | Raise e => (Raise e, log [c_open full_path] st)
  | Ok f =>
      match file_read env (hist st ++ [c_open full_path]) f with
      | Raise e => (Raise e, log [c_open full_path; c_read f] st)
      | Ok raw =>
          match file_close env (hist st ++ [c_open full_path; c_read f]) f with
          | Raise e => (Raise e, log [c_open full_path; c_read f; c_close f] st)
          | Ok _ =>
              (Ok (PickupEvent.set_has_raw_data true (PickupEvent.set_raw_data raw pe)),
               log [c_open full_path; c_read f; c_close f] st)
          end
      end
  end.
Proof.
  unfold read_file, bind, extern, log; simpl.
  destruct (py_open env (hist st) full_path) as [f|e]; [|done].
  destruct (file_read env _ f) as [raw|e]; simpl; rewrite <- ?app_assoc; simpl; [|done].
  by destruct (file_close env _ f).
Qed.

(** A read leaves the manager alone and makes file calls only, whether it
    returns or raises. *)
Lemma read_file_calls env full_path pe st :
  exists cs, (read_file env full_path pe st).2 = log cs st /\
             Forall (fun c => is_file_call c = true) cs.
Proof.
  rewrite read_file_run.
  destruct (py_open env (hist st) full_path) as [f|e];
    [destruct (file_read env _ f) as [raw|e];
     [destruct (file_close env _ f) as [[]|e]|]|];
    eexists; (split; [reflexivity|]); repeat constructor.
Qed.

Lemma read_file_ok env full_path pe st pe1 st1 :
  read_file env full_path pe st = (Ok pe1, st1) ->
  exists raw, pe1 = PickupEvent.set_has_raw_data true (PickupEvent.set_raw_data raw pe).
Proof.
  rewrite read_file_run. intros Hr.
  destruct (py_open env (hist st) full_path) as [f|e];
    [destruct (file_read env _ f) as [raw|e];
     [destruct (file_close env _ f) as [[]|e]|]|]; simplify_eq.
  by exists raw.
Qed.

(** [post_handle] spawns nothing. *)
Lemma post_handle_calls env full_path config st :
  exists cs, (post_handle env full_path config st).2 = log cs st /\ spawned cs = [].
Proof.
  unfold post_handle, bind, extern, ret.
  destruct (move_target config) as [dst|]; simpl.
  - destruct (shutil_copy env (hist st) full_path dst); simpl.
    + destruct (Config.delete_after_pick_up config); simpl.
      * exists [c_shutil_copy full_path dst; c_os_remove full_path].
        unfold log; simpl. by rewrite <- app_assoc.
      * by exists [c_shutil_copy full_path dst].
    + by exists [c_shutil_copy full_path dst].
  - destruct (Config.delete_after_pick_up config); simpl.
    + by exists [c_os_remove full_path].
    + exists []. by rewrite log_nil.
Qed.

(** What remains of the handling once the occurrence is filled in: the
    hand-over to the recipients, as one unit of work, and the clean-up. *)
Lemma hand_over_spawns_once env pe config full_path st :
  spawned (hist ((do_spawn_greenlet env (InvokeCallbacks pe (Config.recipients config)) ;;
                  post_handle env full_path config) st).2) =
  spawned (hist st) ++ [InvokeCallbacks pe (Config.recipients config)].
Proof.
  unfold bind, do_spawn_greenlet. rewrite extern_run.
  destruct (spawn_greenlet env (hist st) _); simpl.
  - destruct (post_handle_calls env full_path config
                (log [c_spawn_greenlet (InvokeCallbacks pe (Config.recipients config))] st))
      as (cs & -> & Hcs).
    simpl. rewrite !spawned_app, Hcs. simpl. by rewrite app_nil_r.
  - by rewrite spawned_app.
Qed.


(** The handling of a qualifying data event, up to the occurrence handed
    over. *)
Lemma handle_event_data env event st base_dir config :
  wd_to_path (self st) !! wd event = Some base_dir ->
  callback_config (self st) !! base_dir = Some config ->
  qualifies env (name event) (Config.patterns config) = true ->
  Config.is_service_hot_deploy config = false ->
  handle_event env event st =
    (pe <- read_and_parse env (os_path_join base_dir (name event)) config
             (occurrence event base_dir config) ;;
     do_spawn_greenlet env (InvokeCallbacks pe (Config.recipients config)) ;;
     post_handle env (os_path_join base_dir (name event)) config)
      (after_match env event config st).
Proof.
  intros Hwd Hcfg Hq Hhot.
  rewrite (handle_event_known_wd _ _ _ _ _ Hwd Hcfg), Hq.
  by apply dispatch_data.
Qed.

Lemma spawned_after_match env event config st :
  spawned (hist (after_match env event config st)) = spawned (hist st).
Proof.
  unfold after_match, log; simpl.
  by rewrite spawned_app, spawned_pattern_calls, app_nil_r.
Qed.

Lemma spawned_read_file env full_path pe st :
  spawned (hist (read_file env full_path pe st).2) = spawned (hist st).
Proof.
  destruct (read_file_calls env full_path pe st) as (cs & -> & Hcs).
  simpl. by rewrite spawned_app, (spawned_file_calls _ Hcs), app_nil_r.
Qed.

Lemma spawned_get_parser env parser_name st :
  spawned (hist (get_parser env parser_name st).2) = spawned (hist st).
Proof.
  destruct (_parser_cache (self st) !! parser_name) as [p|] eqn:Hc.
  - by rewrite (get_parser_cached _ _ _ _ Hc).
  - destruct (get_parser_uncached env parser_name st Hc)
      as [(e & -> & _) | [(name & e & st1 & _ & Hpy & -> & _)
                         | (name & p & st1 & _ & Hpy & _ & ->)]]; simpl; [done| |];
      unfold get_py_parser, bind, extern in Hpy; simpl in Hpy;
      destruct (import_module env (hist st) _); simpl in Hpy; simplify_eq; simpl;
      rewrite ?spawned_app; simpl; by rewrite ?app_nil_r.
Qed.

(** C1, as the code has it. For every qualifying event of a configuration
    with [read_on_pickup] set, [parse_on_pickup] unset and no hot
    deployment, whose file was read, the occurrence handed to the
    recipients holds the bytes read in [data] as well as in [raw_data],
    with [has_raw_data] true, while [has_data] keeps the false of
    [__init__]: the pass-through branch assigns [pe.data] only.  The
    request built from it carries the same [data] and the same false
    [has_data]. *)
Theorem pass_through_sets_data_only :
  forall env event st base_dir config pe1 st1,
    wd_to_path (self st) !! wd event = Some base_dir ->
    callback_config (self st) !! base_dir = Some config ->
    qualifies env (name event) (Config.patterns config) = true ->
    Config.is_service_hot_deploy config = false ->
    Config.read_on_pickup config = true ->
    Config.parse_on_pickup config = false ->
    read_file env (os_path_join base_dir (name event))
      (occurrence event base_dir config) (after_match env event config st) = (Ok pe1, st1) ->
    let pe2 := PickupEvent.set_data (PyStr (PickupEvent.raw_data pe1)) pe1 in
    handle_event env event st =
      (do_spawn_greenlet env (InvokeCallbacks pe2 (Config.recipients config)) ;;
       post_handle env (os_path_join base_dir (name event)) config) st1 /\
    spawned (hist (handle_event env event st).2) =
      spawned (hist st) ++ [InvokeCallbacks pe2 (Config.recipients config)] /\
    PickupEvent.data pe2 = Obj (PyStr (PickupEvent.raw_data pe2)) /\
    PickupEvent.has_raw_data pe2 = true /\
    PickupEvent.has_data pe2 = false /\
    PickupEvent.parse_error pe2 = None /\
    (forall now,
       Request.data (build_request pe2 now) = PyStr (Request.raw_data (build_request pe2 now)) /\
       Request.has_data (build_request pe2 now) = false).
Proof.
  intros env event st base_dir config pe1 st1 Hwd Hcfg Hq Hhot Hread Hparse Hfile pe2.
  assert (handle_event env event st =
      (do_spawn_greenlet env (InvokeCallbacks pe2 (Config.recipients config)) ;;
       post_handle env (os_path_join base_dir (name event)) config) st1) as Hrun.
  { rewrite (handle_event_data _ _ _ _ _ Hwd Hcfg Hq Hhot).
    unfold read_and_parse. rewrite Hread, Hparse.
    erewrite bind_ok; [reflexivity|].
    erewrite bind_ok by exact Hfile. reflexivity. }
  split; [exact Hrun|]. split.
  - rewrite Hrun, hand_over_spawns_once.
    pose proof (spawned_read_file env (os_path_join base_dir (name event))
                  (occurrence event base_dir config) (after_match env event config st)) as Hs.
    rewrite Hfile in Hs. cbn [snd] in Hs. by rewrite Hs, spawned_after_match.
  - destruct (read_file_ok _ _ _ _ _ _ Hfile) as (raw & ->). by repeat split.
Qed.

Lemma pass_through_sets_data_only_witness :
  spawned (hist (handle_event Example.calm Example.a_txt
                   (Example.watching Example.plain)).2) =
    [InvokeCallbacks
       (PickupEvent.set_data (PyStr "[1, 2]") (Example.a_txt_read Example.plain))
       ["pickup.log"; "pickup.update"]].
Proof.
  apply (pass_through_sets_data_only Example.calm Example.a_txt
           (Example.watching Example.plain) "/in" (Example.installed Example.plain)
           (Example.a_txt_read Example.plain) (Example.after_read Example.plain)).
  - vm_compute. reflexivity.
  - vm_compute. reflexivity.
  - vm_compute. reflexivity.
  - reflexivity.
  - reflexivity.
  - reflexivity.
  - vm_compute. reflexivity.
Defined.

(** C1 as stated fails: [a.txt] is read and passed on unparsed, and the
    occurrence handed over has [data] equal to the bytes read but
    [has_data] false. *)
Lemma pass_through_leaves_has_data_false :
  Config.read_on_pickup Example.plain = true /\
  Config.parse_on_pickup Example.plain = false /\
  exists pe,
    spawned (hist (handle_event Example.calm Example.a_txt
                     (Example.watching Example.plain)).2) =
      [InvokeCallbacks pe ["pickup.log"; "pickup.update"]] /\
    PickupEvent.data pe = Obj (PyStr "[1, 2]") /\
    PickupEvent.raw_data pe = "[1, 2]" /\
    PickupEvent.has_data pe <> true.
Proof.
  split; [reflexivity|]. split; [reflexivity|].
  eexists. split; [vm_compute; reflexivity|].
  repeat split. simpl. discriminate.
Qed.

(** C3, as the code has it. For every qualifying event of a configuration
    with [read_on_pickup] set (and no hot deployment) whose file cannot be
    opened, read or closed, the error is not recorded in the occurrence: it
    leaves the handling of the event, the per-event guard logs it, and the
    occurrence is abandoned.  Between the pattern check and the log entry
    there are file calls only, so nothing is handed to the recipients and
    nothing is copied or removed; the manager is left as it was and the
    loop goes on with the rest of the batch. *)
Theorem read_failure_abandons_occurrence :
  forall env event rest st base_dir config e st2,
    wd_to_path (self st) !! wd event = Some base_dir ->
    callback_config (self st) !! base_dir = Some config ->
    qualifies env (name event) (Config.patterns config) = true ->
    Config.is_service_hot_deploy config = false ->
    Config.read_on_pickup config = true ->
    read_file env (os_path_join base_dir (name event))
      (occurrence event base_dir config) (after_match env event config st) = (Raise e, st2) ->
    is_Exception e = true ->
    handle_event env event st = (Raise e, st2) /\
    guarded_event env event st = (Ok tt, log [c_logger_warn e] st2) /\
    process_events env (event :: rest) st =
      process_events env rest (log [c_logger_warn e] st2) /\
    (exists cs, st2 = log cs (after_match env event config st) /\
                Forall (fun c => is_file_call c = true) cs) /\
    spawned (hist (guarded_event env event st).2) = spawned (hist st).
Proof.
  intros env event rest st base_dir config e st2 Hwd Hcfg Hq Hhot Hread Hfile He.
  assert (handle_event env event st = (Raise e, st2)) as Hrun.
  { rewrite (handle_event_data _ _ _ _ _ Hwd Hcfg Hq Hhot).
    unfold read_and_parse. rewrite Hread.
    apply bind_raise. by apply bind_raise. }
  assert (guarded_event env event st = (Ok tt, log [c_logger_warn e] st2)) as Hguard.
  { unfold guarded_event. by erewrite try_except_caught. }
  pose proof (read_file_calls env (os_path_join base_dir (name event))
                (occurrence event base_dir config) (after_match env event config st))
    as (cs & Hcs & Hfc).
  rewrite Hfile in Hcs. cbn [snd] in Hcs.
  repeat split; auto.
  - simpl. by erewrite bind_ok.
  - eauto.
  - rewrite Hguard, Hcs. unfold log; simpl.
    rewrite !spawned_app, spawned_pattern_calls, (spawned_file_calls _ Hfc). simpl.
    by rewrite !app_nil_r.
Qed.

Lemma read_failure_abandons_occurrence_witness :
  guarded_event Example.no_file Example.a_txt (Example.watching Example.plain) =
    (Ok tt,
     log [c_pattern_match 2%N "a.txt"; c_pattern_match 1%N "a.txt";
          c_open "/in/a.txt"; c_logger_warn Example.no_such_file]
       (Example.watching Example.plain)).
Proof.
  apply (read_failure_abandons_occurrence Example.no_file Example.a_txt []
           (Example.watching Example.plain) "/in" (Example.installed Example.plain)
           Example.no_such_file
           (log [c_pattern_match 2%N "a.txt"; c_pattern_match 1%N "a.txt";
                 c_open "/in/a.txt"] (Example.watching Example.plain))).
  - vm_compute. reflexivity.
  - vm_compute. reflexivity.
  - vm_compute. reflexivity.
  - reflexivity.
  - reflexivity.
  - vm_compute. reflexivity.
  - reflexivity.
Defined.

(** C3 as stated fails: [a.txt] has vanished when it is opened; the error
    is logged and no unit of work is spawned for the occurrence, so the
    recipients are not invoked. *)
Lemma read_failure_reaches_no_recipient :
  Config.read_on_pickup Example.plain = true /\
  py_open Example.no_file
    [c_pattern_match 2%N "a.txt"; c_pattern_match 1%N "a.txt"] "/in/a.txt" =
    Raise Example.no_such_file /\
  hist (guarded_event Example.no_file Example.a_txt (Example.watching Example.plain)).2 =
    [c_pattern_match 2%N "a.txt"; c_pattern_match 1%N "a.txt";
     c_open "/in/a.txt"; c_logger_warn Example.no_such_file] /\
  spawned (hist (guarded_event Example.no_file Example.a_txt
                   (Example.watching Example.plain)).2) = [].
Proof. repeat split; vm_compute; reflexivity. Qed.

Lemma spawned_server_invokes request recipients :
  spawned (map (fun r => c_spawn_greenlet (ServerInvoke r request)) recipients) =
  map (fun r => ServerInvoke r request) recipients.
Proof. induction recipients as [|r rs IH]; simpl; by rewrite ?IH. Qed.





(** ** Clean-up *)

(** C2, as the code has it. For every call of [post_handle] with a move
    target set and [delete_after_pick_up] true, the copy to the target is
    the first call made; the original is removed next if the copy
    returned; if the copy raises, the error leaves [post_handle] at once
    and the original is not removed. *)
Theorem post_handle_copies_then_deletes :
  forall env full_path config dst st,
    Config.move_processed_to config = Some dst -> dst <> "" ->
    Config.delete_after_pick_up config = true ->
    let st1 := log [c_shutil_copy full_path dst] st in
    match shutil_copy env (hist st) full_path dst with
    | Ok _ =>
        post_handle env full_path config st =
          (os_remove env (hist st1) full_path, log [c_os_remove full_path] st1)
    | Raise e =>
        post_handle env full_path config st = (Raise e, st1)
    end.
Proof.
  intros env full_path config dst st Hmove Hdst Hdel st1.
  unfold post_handle, move_target. rewrite Hmove, Hdel.
  destruct (String.eqb_spec dst "") as [->|_]; [done|].
  unfold bind. rewrite extern_run. fold st1.
  by destruct (shutil_copy env (hist st) full_path dst).
Qed.

Lemma post_handle_copies_then_deletes_witness :
  post_handle Example.calm "/in/a.txt" Example.plain (Example.watching Example.plain) =
    (Ok tt,
     log [c_os_remove "/in/a.txt"]
       (log [c_shutil_copy "/in/a.txt" "/archive"] (Example.watching Example.plain))).
Proof.
  apply (post_handle_copies_then_deletes Example.calm "/in/a.txt" Example.plain
           "/archive" (Example.watching Example.plain)).
  - reflexivity.
  - discriminate.
  - reflexivity.
Defined.

(** C2 as stated fails: the archive cannot be written, the copy raises, and
    [post_handle] raises in turn without having removed the original. *)
Lemma post_handle_copy_failure_skips_delete :
  Config.move_processed_to Example.plain = Some "/archive" /\
  Config.delete_after_pick_up Example.plain = true /\
  post_handle Example.no_archive "/in/a.txt" Example.plain
    (Example.watching Example.plain) =
    (Raise Example.no_such_file,
     log [c_shutil_copy "/in/a.txt" "/archive"] (Example.watching Example.plain)) /\
  c_os_remove "/in/a.txt" ∉
    hist (post_handle Example.no_archive "/in/a.txt" Example.plain
            (Example.watching Example.plain)).2.
Proof.
  repeat split; try reflexivity.
  intros Hin. vm_compute in Hin.
  apply list_elem_of_singleton in Hin. discriminate.
Qed.

(** ** The per-event guard and the loop *)


Lemma guarded_event_run env event st :
  guarded_event env event st =
  match handle_event env event st with
  | (Ok _, st1) => (Ok tt, st1)
  | (Raise e, st1) =>
      if is_Exception e then (Ok tt, log [c_logger_warn e] st1) else (Raise e, st1)
  end.
Proof.
  unfold guarded_event, try_except.
  destruct (handle_event env event st) as [[[]|e] st1]; [done|].
  by destruct (is_Exception e).
Qed.


Lemma polls_app h1 h2 : polls (h1 ++ h2) = (polls h1 + polls h2)%nat.
Proof. unfold polls. by rewrite List.filter_app, length_app. Qed.










(** The same batch in a loop of three turns, from [run]: the first poll
    brings the batch, whose error is logged; the loop polls again, and it
    is the operator's interrupt at that second poll that ends it. *)
Example loop_polls_again_after_a_bad_file :
  run Example.no_file 3 (Example.fresh Example.plain) =
  (Ok Returned,
   {| self := set_keep_running false (self (Scene.started Example.plain));
      hist := [c_infx_init; c_os_path_exists "/in"; c_infx_add_watch 3 "/in";
               c_infx_get_events 3;
               c_pattern_match 2%N "a.txt"; c_pattern_match 1%N "a.txt";
               c_open "/in/a.txt"; c_logger_warn Example.no_such_file;
               c_pattern_match 2%N "b.txt"; c_pattern_match 1%N "b.txt";
               c_pattern_match 3%N "b.txt";
               c_infx_get_events 3] |}).
Proof. vm_compute. reflexivity. Qed.


(** ** Start-up *)

(** The watch set-up stops with an error at the latest at a directory that
    does not exist, and polls nothing. *)
Lemma watch_setup_missing env fd paths p st :
  p ∈ paths -> (forall h, os_path_exists env h p = false) ->
  exists e st1,
    watch_setup env fd paths st = (Raise e, st1) /\
    polls (hist st1) = polls (hist st) /\
    ((exists q, q ∈ paths /\ e = path_does_not_exist q) \/
     (exists h q, infx_add_watch env h fd q = Raise e)).
Proof.
  intros Hin Hmissing. revert st.
  induction paths as [|q rest IH]; intros st; [by apply elem_of_nil in Hin|].
  simpl. unfold bind at 1. rewrite extern_run.
  destruct (os_path_exists env (hist st) q) eqn:Hq; simpl.
  - apply elem_of_cons in Hin as [->|Hin]; [by rewrite Hmissing in Hq|].
    unfold bind at 1, ret. unfold bind at 1. rewrite extern_run.
    destruct (infx_add_watch env (hist (log [c_os_path_exists q] st)) fd q)
      as [w|e] eqn:Hw.
    + unfold bind at 1, modify.
      destruct (IH Hin
        {| self := set_wd_to_path (<[w := q]>
                     (wd_to_path (self (log [c_infx_add_watch fd q]
                                          (log [c_os_path_exists q] st)))))
                     (self (log [c_infx_add_watch fd q] (log [c_os_path_exists q] st)));
           hist := hist (log [c_infx_add_watch fd q] (log [c_os_path_exists q] st)) |})
        as (e & st1 & Hrun & Hpolls & He).
      exists e, st1. split; [exact Hrun|]. split.
      * rewrite Hpolls. simpl. rewrite !polls_app. simpl.
        unfold polls at 2 3. simpl. lia.
      * destruct He as [(r & Hr & ->)|He]; [left|right]; eauto.
        exists r. split; [|done]. apply elem_of_cons. by right.
    + eexists e, _. split; [reflexivity|]. split.
      * simpl. rewrite !polls_app. unfold polls at 2 3. simpl. lia.
      * right. eauto.
  - eexists _, _. split; [reflexivity|]. split.
    + simpl. rewrite polls_app. unfold polls at 2. simpl. lia.
    + left. exists q. split; [|done]. apply elem_of_cons. by left.
Qed.

Lemma watched_paths_spec self_ p :
  p ∈ watched_paths self_ <-> is_Some (callback_config self_ !! p).
Proof.
  unfold watched_paths. rewrite list_elem_of_fmap. split.
  - intros ([q c] & -> & Hin). apply elem_of_map_to_list in Hin. eauto.
  - intros [c Hc]. exists (p, c). split; [done|]. by apply elem_of_map_to_list.
Qed.

Lemma run_available env fuel st fd :
  infx_available env = true -> infx_init env (hist st) = Ok fd ->
  run env fuel st =
    try_except is_Exception
      (paths <- gets watched_paths ;;
       watch_setup env fd paths ;;
       main_loop env fuel fd)
      (fun e => logger_warn e ;; ret Returned)
      {| self := set_infx_fd fd (self st); hist := hist st ++ [c_infx_init] |}.
Proof.
  intros Havail Hinit. unfold run. rewrite Havail. cbn [negb].
  unfold bind at 1. rewrite extern_run, Hinit. reflexivity.
Qed.

(** C9, as the code has it. If a configured directory does not exist when
    [run] sets the watches up (inotify being available and initialised),
    the set-up raises: the error of line 164 for a missing directory, unless
    registering an earlier watch failed first.  The error does not leave
    [run]: being an [Exception], it is caught by the outermost handler and
    logged as a warning, and [run] returns; only an error that is not an
    [Exception] propagates.  In both cases the event source is never
    polled. *)
Theorem missing_directory_is_logged_and_loop_not_entered :
  forall env fuel st fd p,
    infx_available env = true ->
    infx_init env (hist st) = Ok fd ->
    is_Some (callback_config (self st) !! p) ->
    (forall h, os_path_exists env h p = false) ->
    exists e st1,
      watch_setup env fd (watched_paths (self st))
        {| self := set_infx_fd fd (self st); hist := hist st ++ [c_infx_init] |} =
        (Raise e, st1) /\
      ((exists q, is_Some (callback_config (self st) !! q) /\ e = path_does_not_exist q) \/
       (exists h q, infx_add_watch env h fd q = Raise e)) /\
      run env fuel st =
        (if is_Exception e then (Ok Returned, log [c_logger_warn e] st1)
         else (Raise e, st1)) /\
      polls (hist (run env fuel st).2) = polls (hist st) /\
      ((forall h q w, infx_add_watch env h fd q <> Raise w) ->
       run env fuel st = (Ok Returned, log [c_logger_warn e] st1)).
Proof.
  intros env fuel st fd p Havail Hinit Hp Hmissing.
  apply watched_paths_spec in Hp.
  destruct (watch_setup_missing env fd (watched_paths (self st)) p
              {| self := set_infx_fd fd (self st); hist := hist st ++ [c_infx_init] |}
              Hp Hmissing) as (e & st1 & Hsetup & Hpolls & He).
  assert (run env fuel st =
          (if is_Exception e then (Ok Returned, log [c_logger_warn e] st1)
           else (Raise e, st1))) as Hrun.
  { rewrite (run_available _ _ _ _ Havail Hinit).
    unfold try_except, bind, gets. cbv beta iota. cbn [self].
    change (watched_paths (set_infx_fd fd (self st))) with (watched_paths (self st)).
    rewrite Hsetup. by destruct (is_Exception e). }
  exists e, st1. split; [exact Hsetup|]. split; [|split; [exact Hrun|split]].
  - destruct He as [(q & Hq & ->)|He]; [left|right]; auto.
    exists q. split; [|done]. by apply watched_paths_spec.
  - rewrite Hrun.
    assert (polls (hist st1) = polls (hist st)) as Hp1.
    { rewrite Hpolls. simpl. rewrite polls_app. unfold polls at 2. simpl. lia. }
    destruct (is_Exception e); simpl; [|exact Hp1].
    rewrite polls_app, Hp1. unfold polls at 2. simpl. lia.
  - intros Hwatch. rewrite Hrun.
    destruct He as [(q & _ & ->)|(h & q & Hw)]; [done|].
    by apply Hwatch in Hw.
Qed.

Lemma missing_directory_is_logged_and_loop_not_entered_witness :
  run Example.no_dir 3 (Example.fresh Example.plain) =
    (Ok Returned,
     log [c_logger_warn (path_does_not_exist "/in")]
       (log [c_infx_init; c_os_path_exists "/in"]
          {| self := set_infx_fd 3 (self (Example.fresh Example.plain)); hist := [] |})).
Proof.
  destruct (missing_directory_is_logged_and_loop_not_entered Example.no_dir 3
              (Example.fresh Example.plain) 3 "/in")
    as (e & st1 & Hsetup & _ & _ & _ & Hrun).
  - reflexivity.
  - reflexivity.
  - vm_compute. eauto.
  - reflexivity.
  - rewrite Hrun by done.
    assert ((Raise e, st1) =
            (@Raise unit (path_does_not_exist "/in"),
             log [c_infx_init; c_os_path_exists "/in"]
               {| self := set_infx_fd 3 (self (Example.fresh Example.plain)); hist := [] |}))
      as Heq by (rewrite <- Hsetup; vm_compute; reflexivity).
    by injection Heq as -> ->.
Defined.

(** C9 as stated fails: [/in] does not exist, the error raised by the
    set-up is caught inside [run], which logs it and returns normally
    instead of raising. *)
Lemma missing_directory_error_is_caught :
  os_path_exists Example.no_dir [c_infx_init] "/in" = false /\
  run Example.no_dir 3 (Example.fresh Example.plain) =
    (Ok Returned,
     log [c_infx_init; c_os_path_exists "/in";
          c_logger_warn (path_does_not_exist "/in")]
       {| self := set_infx_fd 3 (self (Example.fresh Example.plain)); hist := [] |}) /\
  ~ (exists e, (run Example.no_dir 3 (Example.fresh Example.plain)).1 = Raise e).
Proof.
  split; [reflexivity|]. split; [vm_compute; reflexivity|].
  intros (e & He). vm_compute in He. discriminate.
Qed.

(** * Further properties of the manager *)

(** ** What events cannot change *)

Lemma same_but_cache_refl st : same_but_cache st st.
Proof. by repeat split. Qed.

Lemma same_but_cache_trans st1 st2 st3 :
  same_but_cache st1 st2 -> same_but_cache st2 st3 -> same_but_cache st1 st3.
Proof.
  intros (H1 & H2 & H3 & H4 & H5) (K1 & K2 & K3 & K4 & K5).
  repeat split; congruence.
Qed.

(** X1. Handling a batch of events, whatever the events and whatever fails on
    the way, changes nothing of the manager but the parser cache, which
    only grows: the watch registry, the configuration and [keep_running]
    are as before. *)
Theorem process_events_changes_only_the_cache :
  forall env events st,
    same_but_cache st (process_events env events st).2 /\
    _parser_cache (self st) ⊆ _parser_cache (self (process_events env events st).2).
Proof.
  intros env events st. split.
  - apply (preserves_process_events same_but_cache).
    + apply same_but_cache_refl.
    + apply same_but_cache_trans.
    + intros; by repeat split.
    + intros; by repeat split.
  - apply (exec_cache_grows env (s_process_events events) st).
Qed.

(** ** Composition of the loop over events *)

(** X2. A batch is handled event by event in the order given: handling two
    batches in sequence is handling their concatenation, and a stop signal
    in the first keeps the second from being looked at. *)
Theorem process_events_app :
  forall env events1 events2 st,
    process_events env (events1 ++ events2) st =
    match process_events env events1 st with
    | (Ok _, st1) => process_events env events2 st1
    | (Raise e, st1) => (Raise e, st1)
    end.
Proof.
  intros env events1 events2. induction events1 as [|ev evs IH]; intros st; [done|].
  simpl. unfold bind.
  destruct (guarded_event env ev st) as [[[]|e] st1]; [apply IH | done].
Qed.

(** ** Pattern sets *)

(** X3. The answer of [should_pick_up] does not depend on the order of the
    patterns, only the number of patterns consulted does. *)
Theorem should_pick_up_order_irrelevant :
  forall env name patterns patterns' st,
    patterns ≡ₚ patterns' ->
    (should_pick_up env name patterns st).1 = (should_pick_up env name patterns' st).1.
Proof.
  intros env name patterns patterns' st Hperm.
  rewrite !should_pick_up_run. simpl.
  assert (qualifies env name patterns = qualifies env name patterns') as ->; [|done].
  apply eq_true_iff_eq. rewrite !qualifies_spec.
  split; intros (p & Hin & Hp); exists p; split; auto.
  - by rewrite <- Hperm.
  - by rewrite Hperm.
Qed.

Lemma should_pick_up_order_irrelevant_witness :
  (should_pick_up Example.calm "a.txt" [2%N; 1%N; 3%N] (Example.watching Example.plain)).1 =
  (should_pick_up Example.calm "a.txt" [3%N; 2%N; 1%N] (Example.watching Example.plain)).1.
Proof.
  apply (should_pick_up_order_irrelevant Example.calm "a.txt" [2%N; 1%N; 3%N]
           [3%N; 2%N; 1%N] (Example.watching Example.plain)).
  symmetry. exact (Permutation_cons_append [2%N; 1%N] 3%N).
Defined.

(** ** The loop *)

(** X4. While the event source has nothing to report and nobody clears
    [keep_running], the loop does nothing but poll, turn after turn, and
    leaves the manager as it was. *)
Theorem idle_loop_only_polls :
  forall env fuel fd st,
    (forall h, infx_get_events env h fd = Ok []) ->
    keep_running (self st) = true ->
    main_loop env fuel fd st =
      (Ok StillRunning, log (replicate fuel (c_infx_get_events fd)) st).
Proof.
  intros env fuel fd st Hidle. revert st.
  induction fuel as [|n IH]; intros st Hkeep; simpl.
  - unfold bind, gets. rewrite Hkeep. simpl. by rewrite log_nil.
  - unfold bind at 1, gets. rewrite Hkeep. simpl.
    assert (poll env fd st = (Ok tt, log [c_infx_get_events fd] st)) as Hpoll.
    { unfold poll. apply try_except_ok.
      erewrite bind_ok by (by rewrite extern_run, Hidle). reflexivity. }
    erewrite bind_ok by exact Hpoll.
    rewrite IH by done. by rewrite log_log.
Qed.

Lemma idle_loop_only_polls_witness :
  main_loop Scene.idle 3 3 (Example.watching Example.plain) =
    (Ok StillRunning,
     log [c_infx_get_events 3; c_infx_get_events 3; c_infx_get_events 3]
       (Example.watching Example.plain)).
Proof.
  apply (idle_loop_only_polls Scene.idle 3 3 (Example.watching Example.plain)).
  - reflexivity.
  - reflexivity.
Defined.

Lemma main_loop_stopped env fuel fd st :
  keep_running (self st) = false -> main_loop env fuel fd st = (Ok Returned, st).
Proof.
  intros Hkeep. destruct fuel; simpl; unfold bind, gets; by rewrite Hkeep.
Qed.

(** X5. A [KeyboardInterrupt] out of the poll clears [keep_running]; the loop
    ends at its next test without polling again, however many turns it
    was given. *)
Theorem keyboard_interrupt_stops_the_loop :
  forall env fuel fd st e,
    keep_running (self st) = true ->
    infx_get_events env (hist st) fd = Raise e ->
    is_KeyboardInterrupt e = true ->
    main_loop env (S fuel) fd st =
      (Ok Returned,
       {| self := set_keep_running false (self st);
          hist := hist st ++ [c_infx_get_events fd] |}).
Proof.
  intros env fuel fd st e Hkeep Hpoll He.
  simpl. unfold bind at 1, gets. rewrite Hkeep. simpl.
  assert (poll env fd st =
          (Ok tt, {| self := set_keep_running false (self st);
                     hist := hist st ++ [c_infx_get_events fd] |})) as Hp.
  { unfold poll.
    rewrite (try_except_caught _ _ _ _ e (log [c_infx_get_events fd] st));
      [reflexivity| |exact He].
    apply bind_raise. by rewrite extern_run, Hpoll. }
  erewrite bind_ok by exact Hp. by apply main_loop_stopped.
Qed.

Lemma keyboard_interrupt_stops_the_loop_witness :
  main_loop Scene.interrupted 5 3 (Example.watching Example.plain) =
    (Ok Returned,
     {| self := set_keep_running false (self (Example.watching Example.plain));
        hist := [c_infx_get_events 3] |}).
Proof.
  apply (keyboard_interrupt_stops_the_loop Scene.interrupted 4 3
           (Example.watching Example.plain) Scene.interrupt).
  - reflexivity.
  - reflexivity.
  - reflexivity.
Defined.

(** X6. A [KeyboardInterrupt] raised while an event is being handled is not
    logged by the per-event guard: the rest of the batch is dropped,
    [keep_running] is cleared and the loop ends. *)
Theorem keyboard_interrupt_drops_the_rest_of_the_batch :
  forall env fuel fd st event rest e st2,
    keep_running (self st) = true ->
    infx_get_events env (hist st) fd = Ok (event :: rest) ->
    handle_event env event (log [c_infx_get_events fd] st) = (Raise e, st2) ->
    is_KeyboardInterrupt e = true ->
    main_loop env (S fuel) fd st =
      (Ok Returned, {| self := set_keep_running false (self st2); hist := hist st2 |}).
Proof.
  intros env fuel fd st event rest e st2 Hkeep Hpoll Hev He.
  assert (is_Exception e = false) as Hne.
  { unfold is_KeyboardInterrupt in He. unfold is_Exception.
    by destruct (exn_cls e). }
  simpl. unfold bind at 1, gets. rewrite Hkeep. simpl.
  assert (poll env fd st =
          (Ok tt, {| self := set_keep_running false (self st2); hist := hist st2 |})) as Hp.
  { unfold poll.
    rewrite (try_except_caught _ _ _ _ e st2); [reflexivity| |exact He].
    erewrite bind_ok by (by rewrite extern_run, Hpoll).
    simpl. apply bind_raise. rewrite guarded_event_run, Hev. by rewrite Hne. }
  erewrite bind_ok by exact Hp. by apply main_loop_stopped.
Qed.

Lemma keyboard_interrupt_drops_the_rest_of_the_batch_witness :
  main_loop Scene.interrupted_read 5 3 (Example.watching Example.plain) =
    (Ok Returned,
     {| self := set_keep_running false (self (Example.watching Example.plain));
        hist := [c_infx_get_events 3; c_pattern_match 2%N "a.txt";
                 c_pattern_match 1%N "a.txt"; c_open "/in/a.txt"; c_read 7%N] |}).
Proof.
  apply (keyboard_interrupt_drops_the_rest_of_the_batch Scene.interrupted_read 4 3
           (Example.watching Example.plain) Example.a_txt [Example.a_txt] Scene.interrupt
           {| self := self (Example.watching Example.plain);
              hist := [c_infx_get_events 3; c_pattern_match 2%N "a.txt";
                       c_pattern_match 1%N "a.txt"; c_open "/in/a.txt"; c_read 7%N] |}).
  - reflexivity.
  - reflexivity.
  - vm_compute. reflexivity.
  - reflexivity.
Defined.

(** Any other error out of the poll is outside the per-event guard and
    outside the handler of the stop signal: it ends the loop with
    [keep_running] still set. *)
Lemma main_loop_poll_error env fuel fd st e :
  keep_running (self st) = true ->
  infx_get_events env (hist st) fd = Raise e ->
  is_KeyboardInterrupt e = false ->
  main_loop env (S fuel) fd st = (Raise e, log [c_infx_get_events fd] st).
Proof.
  intros Hkeep Hpoll He.
  simpl. unfold bind at 1, gets. rewrite Hkeep. simpl.
  apply bind_raise. unfold poll. eapply try_except_escapes; [|exact He].
  apply bind_raise. by rewrite extern_run, Hpoll.
Qed.

(** ** [run] from start to end *)

Lemma handler_never_raises {A} (m : M A) (handler : exn -> M A) st e st' :
  (forall e0 st0, exists a st1, handler e0 st0 = (Ok a, st1)) ->
  try_except is_Exception m handler st = (Raise e, st') -> is_Exception e = false.
Proof.
  intros Hh. unfold try_except.
  destruct (m st) as [[a|e0] st0]; [done|].
  destruct (is_Exception e0) eqn:He0.
  - destruct (Hh e0 st0) as (a & st1 & ->). done.
  - by intros [= <- <-].
Qed.

(** X7. Whatever happens, [run] lets no [Exception] out, with one exception:
    the initialisation of inotify (line 158) is outside the [try], and what
    it raises leaves [run] as it is. *)
Theorem run_raises_only_initialisation_errors_and_stop_signals :
  forall env fuel st e st',
    run env fuel st = (Raise e, st') ->
    infx_available env = true /\
    (infx_init env (hist st) = Raise e \/ is_Exception e = false).
Proof.
  intros env fuel st e st'. unfold run.
  destruct (infx_available env); simpl; [|done].
  intros Hrun. split; [done|].
  unfold bind at 1 in Hrun. rewrite extern_run in Hrun.
  destruct (infx_init env (hist st)) as [fd|e0]; [|left; by simplify_eq].
  right. unfold bind at 1, modify in Hrun.
  eapply handler_never_raises; [|exact Hrun].
  intros e0 st0. by eexists _, _.
Qed.

Lemma run_raises_only_initialisation_errors_and_stop_signals_witness :
  infx_init Scene.no_inotify_instance [] = Raise Scene.out_of_watches \/
  is_Exception Scene.out_of_watches = false.
Proof.
  apply (run_raises_only_initialisation_errors_and_stop_signals
           Scene.no_inotify_instance 3 (Example.fresh Example.plain)
           Scene.out_of_watches (log [c_infx_init] (Example.fresh Example.plain))).
  reflexivity.
Defined.

Lemma run_after_setup env fuel st fd st1 :
  infx_available env = true -> infx_init env (hist st) = Ok fd ->
  watch_setup env fd (watched_paths (self st))
    {| self := set_infx_fd fd (self st); hist := hist st ++ [c_infx_init] |} = (Ok tt, st1) ->
  run env fuel st =
    try_except is_Exception (main_loop env fuel fd)
      (fun e => logger_warn e ;; ret Returned) st1.
Proof.
  intros Havail Hinit Hsetup. rewrite (run_available _ _ _ _ Havail Hinit).
  unfold try_except, bind, gets. cbv beta iota. cbn [self].
  change (watched_paths (set_infx_fd fd (self st))) with (watched_paths (self st)).
  by rewrite Hsetup.
Qed.

(** X8. An error of the event source other than the stop signal ends the
    watcher for good: it is outside the per-event guard, so it leaves the
    loop, is logged by the outermost handler, and [run] returns although
    [keep_running] is still set. *)
Theorem poll_error_ends_run :
  forall env fuel st fd st1 e,
    infx_available env = true ->
    infx_init env (hist st) = Ok fd ->
    watch_setup env fd (watched_paths (self st))
      {| self := set_infx_fd fd (self st); hist := hist st ++ [c_infx_init] |} = (Ok tt, st1) ->
    keep_running (self st1) = true ->
    infx_get_events env (hist st1) fd = Raise e ->
    is_Exception e = true ->
    run env (S fuel) st =
      (Ok Returned, log [c_infx_get_events fd; c_logger_warn e] st1) /\
    keep_running (self (run env (S fuel) st).2) = true.
Proof.
  intros env fuel st fd st1 e Havail Hinit Hsetup Hkeep Hpoll He.
  assert (is_KeyboardInterrupt e = false) as Hk.
  { unfold is_Exception in He. unfold is_KeyboardInterrupt. by destruct (exn_cls e). }
  assert (run env (S fuel) st =
          (Ok Returned, log [c_infx_get_events fd; c_logger_warn e] st1)) as Hrun.
  { rewrite (run_after_setup _ _ _ _ _ Havail Hinit Hsetup).
    rewrite (try_except_caught _ _ _ _ e (log [c_infx_get_events fd] st1));
      [|by apply main_loop_poll_error|exact He].
    unfold bind, logger_warn. rewrite extern_run. by rewrite log_log. }
  split; [exact Hrun|]. by rewrite Hrun.
Qed.

Lemma poll_error_ends_run_witness :
  run Scene.broken_source 4 (Example.fresh Example.plain) =
    (Ok Returned,
     log [c_infx_get_events 3; c_logger_warn Scene.broken_pipe]
       (Scene.started Example.plain)).
Proof.
  apply (poll_error_ends_run Scene.broken_source 3 (Example.fresh Example.plain) 3
           (Scene.started Example.plain) Scene.broken_pipe).
  - reflexivity.
  - reflexivity.
  - vm_compute. reflexivity.
  - reflexivity.
  - reflexivity.
  - reflexivity.
Defined.

(** A set-up in which every directory exists and every watch is granted
    goes through the directories in order, asking and registering, and maps
    each granted descriptor to its directory. *)
Lemma watch_setup_ok env fd (w : string -> Z) paths st :
  (forall h p, p ∈ paths ->
     os_path_exists env h p = true /\ infx_add_watch env h fd p = Ok (w p)) ->
  (forall p q, p ∈ paths -> q ∈ paths -> w p = w q -> p = q) ->
  exists st1,
    watch_setup env fd paths st = (Ok tt, st1) /\
    hist st1 = hist st ++ setup_calls fd paths /\
    (forall p, p ∈ paths -> wd_to_path (self st1) !! w p = Some p) /\
    (forall k, (forall p, p ∈ paths -> w p <> k) ->
       wd_to_path (self st1) !! k = wd_to_path (self st) !! k) /\
    keep_running (self st1) = keep_running (self st) /\
    callback_config (self st1) = callback_config (self st) /\
    _parser_cache (self st1) = _parser_cache (self st) /\
    infx_fd (self st1) = infx_fd (self st).
Proof.
  revert st. induction paths as [|q rest IH]; intros st Henv Hinj.
  - exists st. simpl. rewrite app_nil_r. repeat split; auto.
    intros p Hp. by apply elem_of_nil in Hp.
  - destruct (Henv (hist st) q) as [Hex _]; [by left|].
    destruct (Henv (hist (log [c_os_path_exists q] st)) q) as [_ Hw]; [by left|].
    destruct (IH
      {| self := set_wd_to_path (<[w q := q]> (wd_to_path (self st))) (self st);
         hist := (hist st ++ [c_os_path_exists q]) ++ [c_infx_add_watch fd q] |})
      as (st1 & Hrun & Hhist & Hreg & Hother & Hkeep & Hcfg & Hcache & Hfd).
    { intros h p Hp. apply Henv. by right. }
    { intros p p' Hp Hp'. apply Hinj; by right. }
    exists st1. split.
    { simpl. unfold bind at 1. rewrite extern_run, Hex. simpl.
      unfold bind at 1, ret. unfold bind at 1. rewrite extern_run, Hw.
      unfold bind at 1, modify. exact Hrun. }
    split; [rewrite Hhist; simpl; by rewrite <- !app_assoc|].
    simpl in *. repeat split; auto.
    + intros p Hp. apply elem_of_cons in Hp as [->|Hp]; [|by apply Hreg].
      destruct (decide (q ∈ rest)) as [Hin|Hnotin]; [by apply Hreg|].
      rewrite Hother.
      * by rewrite lookup_insert_eq.
      * intros p Hp Heq. apply Hnotin.
        assert (p = q) as <-; [|done].
        apply Hinj; [by right | by left | done].
    + intros k Hk. rewrite Hother.
      * rewrite lookup_insert_ne; [done|]. apply Hk. by left.
      * intros p Hp. apply Hk. by right.
Qed.

(** X9. When inotify is there, every configured directory exists and every
    watch is granted (distinct directories getting distinct descriptors),
    [run] registers each directory under its descriptor, polls nothing
    before that, and enters the loop. *)
Theorem startup_registers_every_directory :
  forall env st fd (w : string -> Z),
    infx_available env = true ->
    infx_init env (hist st) = Ok fd ->
    keep_running (self st) = true ->
    (forall h p, is_Some (callback_config (self st) !! p) ->
       os_path_exists env h p = true /\ infx_add_watch env h fd p = Ok (w p)) ->
    (forall p q, is_Some (callback_config (self st) !! p) ->
       is_Some (callback_config (self st) !! q) -> w p = w q -> p = q) ->
    exists st1,
      run env 0 st = (Ok StillRunning, st1) /\
      (forall fuel, run env fuel st =
         try_except is_Exception (main_loop env fuel fd)
           (fun e => logger_warn e ;; ret Returned) st1) /\
      hist st1 = hist st ++ c_infx_init :: setup_calls fd (watched_paths (self st)) /\
      (forall p, is_Some (callback_config (self st) !! p) ->
         wd_to_path (self st1) !! w p = Some p) /\
      infx_fd (self st1) = Some fd /\
      callback_config (self st1) = callback_config (self st).
Proof.
  intros env st fd w Havail Hinit Hkeep Henv Hinj.
  destruct (watch_setup_ok env fd w (watched_paths (self st))
              {| self := set_infx_fd fd (self st); hist := hist st ++ [c_infx_init] |})
    as (st1 & Hsetup & Hhist & Hreg & _ & Hkeep1 & Hcfg & _ & Hfd).
  { intros h p Hp. apply Henv. by apply watched_paths_spec. }
  { intros p q Hp Hq. apply Hinj; by apply watched_paths_spec. }
  exists st1. simpl in *.
  assert (forall fuel, run env fuel st =
            try_except is_Exception (main_loop env fuel fd)
              (fun e => logger_warn e ;; ret Returned) st1) as Hrun.
  { intros fuel. by apply run_after_setup. }
  repeat split; auto.
  - rewrite Hrun. apply try_except_ok. simpl. unfold bind, gets.
    by rewrite Hkeep1, Hkeep.
  - rewrite Hhist. by rewrite <- app_assoc.
  - intros p Hp. apply Hreg. by apply watched_paths_spec.
Qed.

Lemma startup_registers_every_directory_witness :
  exists st1,
    run Example.calm 0 (Example.fresh Example.plain) = (Ok StillRunning, st1) /\
    wd_to_path (self st1) !! 1 = Some "/in".
Proof.
  destruct (startup_registers_every_directory Example.calm
              (Example.fresh Example.plain) 3 (fun _ => 1))
    as (st1 & Hrun & _ & _ & Hreg & _).
  - reflexivity.
  - reflexivity.
  - reflexivity.
  - intros h p _. split; reflexivity.
  - intros p q [c Hp] [c' Hq] _.
    unfold Example.fresh, initial, PickupManager_init in Hp, Hq. simpl in Hp, Hq.
    apply lookup_insert_Some in Hp as [[<- _]|[_ Hp]]; [|by rewrite lookup_empty in Hp].
    apply lookup_insert_Some in Hq as [[<- _]|[_ Hq]]; [|by rewrite lookup_empty in Hq].
    done.
  - exists st1. split; [exact Hrun|].
    apply (Hreg "/in"). vm_compute. eauto.
Defined.

(** ** Construction and the watch registry *)

Lemma init_fold_lookup (config : list (string * Config.t)) :
  forall (acc : gmap string Config.t) d c,
    foldl (fun cc item =>
             <[Config.pickup_from item.2 := Config.set_stanza item.1 item.2]> cc)
          acc config !! d = Some c ->
    (acc !! d = Some c /\ forall item, item ∈ config -> Config.pickup_from item.2 <> d) \/
    (exists pre stanza section post,
       config = pre ++ (stanza, section) :: post /\
       Config.pickup_from section = d /\
       c = Config.set_stanza stanza section /\
       forall item, item ∈ post -> Config.pickup_from item.2 <> d).
Proof.
  induction config as [|[stanza section] rest IH]; intros acc d c; simpl.
  - intros Hacc. left. split; [done|]. intros item Hin. by apply elem_of_nil in Hin.
  - intros Hl. apply IH in Hl as [[Hacc Hrest]|(pre & st' & sec' & post & -> & Hd & Hc & Hpost)].
    + apply lookup_insert_Some in Hacc as [[Hd Hc]|[Hd Hacc]].
      * right. exists [], stanza, section, rest. by repeat split.
      * left. split; [done|]. intros item Hin.
        apply elem_of_cons in Hin as [->|Hin]; [done | by apply Hrest].
    + right. exists ((stanza, section) :: pre), st', sec', post. by repeat split.
Qed.

Lemma init_fold_keys (config : list (string * Config.t)) :
  forall (acc : gmap string Config.t) item,
    item ∈ config ->
    is_Some (foldl (fun cc item =>
                      <[Config.pickup_from item.2 := Config.set_stanza item.1 item.2]> cc)
                   acc config !! Config.pickup_from item.2).
Proof.
  assert (forall (config : list (string * Config.t)) (acc : gmap string Config.t) d,
            is_Some (acc !! d) ->
            is_Some (foldl (fun cc item =>
                        <[Config.pickup_from item.2 := Config.set_stanza item.1 item.2]> cc)
                      acc config !! d)) as Hmono.
  { clear. induction config as [|x rest IH]; intros acc d Hd; simpl; [done|].
    apply IH. rewrite lookup_insert. case_decide; [eauto | done]. }
  induction config as [|x rest IH]; intros acc item Hin; simpl.
  - by apply elem_of_nil in Hin.
  - apply elem_of_cons in Hin as [->|Hin]; [|by apply IH].
    apply Hmono. rewrite lookup_insert_eq. eauto.
Qed.

(** X10. [__init__] keys the configuration by directory: the keys of
    [callback_config] are exactly the [pickup_from] directories of the
    stanzas; the entry of a directory names that directory and carries the
    name of the last stanza that picks up from it; the manager starts with
    [keep_running] set and with no watch and no parser. *)
Theorem init_keys_configuration_by_directory :
  forall config,
    let manager := PickupManager_init config in
    (forall d, is_Some (callback_config manager !! d) <->
       exists stanza section, (stanza, section) ∈ config /\ Config.pickup_from section = d) /\
    (forall d c, callback_config manager !! d = Some c ->
       Config.pickup_from c = d /\
       exists pre section post,
         config = pre ++ (Config.stanza c, section) :: post /\
         Config.pickup_from section = d /\
         forall item, item ∈ post -> Config.pickup_from item.2 <> d) /\
    keep_running manager = true /\ _parser_cache manager = ∅ /\
    wd_to_path manager = ∅ /\ infx_fd manager = None.
Proof.
  intros config manager. split; [|split; [|done]].
  - intros d. split.
    + intros [c Hc]. apply init_fold_lookup in Hc
        as [[Hacc _]|(pre & stanza & section & post & -> & Hd & _)].
      * by rewrite lookup_empty in Hacc.
      * exists stanza, section. split; [|done].
        apply elem_of_app. right. by left.
    + intros (stanza & section & Hin & <-).
      apply (init_fold_keys config ∅ (stanza, section) Hin).
  - intros d c Hc. apply init_fold_lookup in Hc
      as [[Hacc _]|(pre & stanza & section & post & -> & Hd & -> & Hpost)].
    + by rewrite lookup_empty in Hacc.
    + split; [done|]. by exists pre, section, post.
Qed.

Lemma registry_kept_refl st : registry_kept st st.
Proof. split; [done | tauto]. Qed.

Lemma registry_kept_trans st1 st2 st3 :
  registry_kept st1 st2 -> registry_kept st2 st3 -> registry_kept st1 st3.
Proof. intros [H1 W1] [H2 W2]. split; [congruence | tauto]. Qed.

Lemma registry_kept_same st st' :
  wd_to_path (self st') = wd_to_path (self st) ->
  callback_config (self st') = callback_config (self st) ->
  registry_kept st st'.
Proof.
  intros Hwd Hcc. split; [done|]. unfold registry_wf. by rewrite Hwd, Hcc.
Qed.

Lemma watch_setup_registry_kept env fd paths st :
  (forall p, p ∈ paths -> is_Some (callback_config (self st) !! p)) ->
  registry_kept st (watch_setup env fd paths st).2.
Proof.
  revert st. induction paths as [|q rest IH]; intros st Hpaths; simpl.
  - apply registry_kept_refl.
  - unfold bind at 1. rewrite extern_run.
    destruct (os_path_exists env (hist st) q); simpl;
      [|by apply registry_kept_same].
    unfold bind at 1, ret. unfold bind at 1. rewrite extern_run.
    destruct (infx_add_watch env _ fd q) as [w|e]; simpl;
      [|by apply registry_kept_same].
    unfold bind at 1, modify.
    eapply registry_kept_trans; [|apply IH].
    + split; [done|]. intros Hwf w' p. simpl. rewrite lookup_insert.
      case_decide; [|apply Hwf].
      intros [= <-]. apply Hpaths. by left.
    + intros p Hp. simpl. apply Hpaths. by right.
Qed.

Lemma main_loop_registry_kept env fuel fd st :
  registry_kept st (main_loop env fuel fd st).2.
Proof.
  apply (preserves_main_loop registry_kept).
  - apply registry_kept_refl.
  - apply registry_kept_trans.
  - intros; by apply registry_kept_same.
  - intros; by apply registry_kept_same.
  - intros; by apply registry_kept_same.
Qed.

Lemma run_registry_kept env fuel st : registry_kept st (run env fuel st).2.
Proof.
  destruct (infx_available env) eqn:Havail;
    [|unfold run; rewrite Havail; by apply registry_kept_same].
  destruct (infx_init env (hist st)) as [fd|e] eqn:Hinit.
  - rewrite (run_available _ _ _ _ Havail Hinit).
    set (st0 := {| self := set_infx_fd fd (self st); hist := hist st ++ [c_infx_init] |}).
    apply (registry_kept_trans st st0); [by apply registry_kept_same|].
    assert (registry_kept st0 (watch_setup env fd (watched_paths (self st)) st0).2) as H1.
    { apply watch_setup_registry_kept. intros p Hp. by apply watched_paths_spec. }
    unfold try_except, bind, gets. cbv beta iota. cbn [self].
    change (watched_paths (self st0)) with (watched_paths (self st)).
    destruct (watch_setup env fd (watched_paths (self st)) st0) as [[[]|e] st1];
      cbn [snd] in H1.
    + pose proof (main_loop_registry_kept env fuel fd st1) as H2.
      destruct (main_loop env fuel fd st1) as [[r|e] st2]; cbn [snd] in *.
      * by eapply registry_kept_trans.
      * destruct (is_Exception e); cbn [snd].
        -- eapply registry_kept_trans; [exact H1|].
           eapply registry_kept_trans; [exact H2|]. by apply registry_kept_same.
        -- by eapply registry_kept_trans.
    + destruct (is_Exception e); cbn [snd]; [|done].
      eapply registry_kept_trans; [exact H1|]. by apply registry_kept_same.
  - unfold run. rewrite Havail. cbn [negb]. unfold bind at 1.
    rewrite extern_run, Hinit. by apply registry_kept_same.
Qed.

Lemma exec_registry_kept env s st : registry_kept st (exec env s st).
Proof.
  destruct s; simpl; try apply run_registry_kept;
    first [ apply (preserves_get_parser registry_kept)
          | apply (preserves_handle_event registry_kept)
          | apply (preserves_process_events registry_kept)
          | apply (preserves_poll registry_kept)
          | apply (preserves_invoke_callbacks registry_kept)
          | apply (preserves_post_handle registry_kept) ];
    first [ apply registry_kept_refl | apply registry_kept_trans
          | intros; by apply registry_kept_same ].
Qed.

Lemma initial_registry_wf config h : registry_wf (initial config h).
Proof. intros w p Hw. simpl in Hw. by rewrite lookup_empty in Hw. Qed.

(** X11. In every state a manager reaches from its construction, the
    configuration is the one [__init__] built and every registered watch
    descriptor stands for a configured directory: an event of a registered
    watch always finds the entry of its directory, so line 178 cannot raise
    for it. *)
Theorem registered_watch_has_configuration :
  forall config h steps event base_dir,
    let st := exec_all steps (initial config h) in
    wd_to_path (self st) !! wd event = Some base_dir ->
    callback_config (self st) = callback_config (PickupManager_init config) /\
    exists entry,
      callback_config (self st) !! base_dir = Some entry /\
      Config.pickup_from entry = base_dir.
Proof.
  intros config h steps event base_dir st Hwd.
  assert (registry_kept (initial config h) st) as [Hcc Hwf].
  { subst st. generalize (initial config h). clear.
    induction steps as [|[env s] steps IH]; intros st0; simpl.
    - apply registry_kept_refl.
    - eapply registry_kept_trans; [apply exec_registry_kept | apply IH]. }
  split; [exact Hcc|].
  destruct (Hwf (initial_registry_wf config h) _ _ Hwd) as [entry Hentry].
  exists entry. split; [done|].
  rewrite Hcc in Hentry.
  apply init_fold_lookup in Hentry
    as [[Hacc _]|(pre & stanza & section & post & _ & Hd & -> & _)]; [|done].
  by rewrite lookup_empty in Hacc.
Qed.

Lemma registered_watch_has_configuration_witness :
  exists entry,
    callback_config
      (self (exec_all [(Example.calm, s_run 0)]
               (initial [("inbox", Example.plain)] []))) !! "/in" = Some entry /\
    Config.pickup_from entry = "/in".
Proof.
  apply (registered_watch_has_configuration [("inbox", Example.plain)] []
           [(Example.calm, s_run 0)] Example.a_txt "/in").
  vm_compute. reflexivity.
Defined.

(** ** Events that are not dispatched *)

(** X12. An event of a watch descriptor that is not in the registry is not
    skipped in silence: line 177 raises [KeyError], the per-event guard logs
    it, nothing else is done for the event, and the batch goes on. *)
Theorem unknown_watch_is_logged :
  forall env event rest st,
    wd_to_path (self st) !! wd event = None ->
    guarded_event env event st =
      (Ok tt, log [c_logger_warn (Exn KeyError (PyInt (wd event)))] st) /\
    process_events env (event :: rest) st =
      process_events env rest (log [c_logger_warn (Exn KeyError (PyInt (wd event)))] st).
Proof.
  intros env event rest st Hwd.
  assert (guarded_event env event st =
          (Ok tt, log [c_logger_warn (Exn KeyError (PyInt (wd event)))] st)) as Hg.
  { rewrite guarded_event_run, (handle_event_unknown_wd _ _ _ Hwd). reflexivity. }
  split; [exact Hg|]. simpl. by erewrite bind_ok.
Qed.

Lemma unknown_watch_is_logged_witness :
  guarded_event Example.calm Scene.stray (Example.watching Example.plain) =
    (Ok tt, log [c_logger_warn (Exn KeyError (PyInt 9))] (Example.watching Example.plain)).
Proof.
  apply (unknown_watch_is_logged Example.calm Scene.stray []
           (Example.watching Example.plain)).
  vm_compute. reflexivity.
Defined.

(** X13. A file whose name no pattern of its directory matches is left alone:
    every pattern is consulted, in order, and that is all; nothing is
    read, spawned, copied, removed or logged, and the manager is as it
    was. *)
Theorem non_qualifying_file_is_skipped :
  forall env event st base_dir config,
    wd_to_path (self st) !! wd event = Some base_dir ->
    callback_config (self st) !! base_dir = Some config ->
    qualifies env (name event) (Config.patterns config) = false ->
    handle_event env event st =
      (Ok tt, log (map (fun p => c_pattern_match p (name event)) (Config.patterns config)) st) /\
    guarded_event env event st = handle_event env event st.
Proof.
  intros env event st base_dir config Hwd Hcfg Hq.
  assert (handle_event env event st =
      (Ok tt, log (map (fun p => c_pattern_match p (name event)) (Config.patterns config)) st))
    as Hrun.
  { rewrite (handle_event_known_wd _ _ _ _ _ Hwd Hcfg), Hq. unfold after_match.
    destruct (tried_prefix env (name event) (Config.patterns config)) as (rest & _ & Ht).
    rewrite Hq in Ht. destruct Ht as [_ ->]. reflexivity. }
  split; [exact Hrun|]. by rewrite guarded_event_run, Hrun.
Qed.

Lemma non_qualifying_file_is_skipped_witness :
  handle_event Example.calm Scene.b_txt (Example.watching Example.plain) =
    (Ok tt,
     log [c_pattern_match 2%N "b.txt"; c_pattern_match 1%N "b.txt";
          c_pattern_match 3%N "b.txt"] (Example.watching Example.plain)).
Proof.
  apply (non_qualifying_file_is_skipped Example.calm Scene.b_txt
           (Example.watching Example.plain) "/in" (Example.installed Example.plain)).
  - vm_compute. reflexivity.
  - vm_compute. reflexivity.
  - reflexivity.
Defined.

(** ** The data path *)

(** X14. Without [read_on_pickup] the file is not opened, whatever
    [parse_on_pickup] says: the occurrence handed over holds the path and
    the stanza only, and the request built from it has empty [raw_data],
    [None] for [data], both flags false and no parse error. *)
Theorem unread_occurrence_carries_no_content :
  forall env event st base_dir config,
    wd_to_path (self st) !! wd event = Some base_dir ->
    callback_config (self st) !! base_dir = Some config ->
    qualifies env (name event) (Config.patterns config) = true ->
    Config.is_service_hot_deploy config = false ->
    Config.read_on_pickup config = false ->
    let pe := occurrence event base_dir config in
    handle_event env event st =
      (do_spawn_greenlet env (InvokeCallbacks pe (Config.recipients config)) ;;
       post_handle env (os_path_join base_dir (name event)) config)
        (after_match env event config st) /\
    (forall now,
       let request := build_request pe now in
       Request.raw_data request = "" /\ Request.data request = PyNone /\
       Request.has_raw_data request = false /\ Request.has_data request = false /\
       Request.parse_error request = None /\
       Request.file_name request = Some (name event) /\
       Request.full_path request = Some (os_path_join base_dir (name event)) /\
       Request.base_dir request = Some base_dir /\
       Request.stanza request = Some (Config.stanza config) /\
       Request.ts_utc request = now).
Proof.
  intros env event st base_dir config Hwd Hcfg Hq Hhot Hread pe. split.
  - rewrite (handle_event_data _ _ _ _ _ Hwd Hcfg Hq Hhot).
    unfold read_and_parse. rewrite Hread. reflexivity.
  - intros now. by repeat split.
Qed.

Lemma unread_occurrence_carries_no_content_witness :
  handle_event Example.calm Example.a_txt (Example.watching Scene.bare) =
    (Ok tt,
     log [c_spawn_greenlet (InvokeCallbacks Scene.a_txt_bare ["pickup.log"; "pickup.update"]);
          c_shutil_copy "/in/a.txt" "/archive"; c_os_remove "/in/a.txt"]
       (Scene.after_patterns Scene.bare)).
Proof.
  rewrite (proj1 (unread_occurrence_carries_no_content Example.calm Example.a_txt
                    (Example.watching Scene.bare) "/in" (Example.installed Scene.bare)
                    ltac:(vm_compute; reflexivity) ltac:(vm_compute; reflexivity)
                    ltac:(vm_compute; reflexivity) eq_refl eq_refl)).
  vm_compute. reflexivity.
Defined.



(** X16. The hand-over comes before the clean-up, and the clean-up depends on
    it: if spawning the unit of the recipients raises, the error leaves
    the handling at once and the file is neither copied nor removed. *)
Theorem hand_over_precedes_clean_up :
  forall env event st base_dir config pe st1,
    wd_to_path (self st) !! wd event = Some base_dir ->
    callback_config (self st) !! base_dir = Some config ->
    qualifies env (name event) (Config.patterns config) = true ->
    Config.is_service_hot_deploy config = false ->
    read_and_parse env (os_path_join base_dir (name event)) config
      (occurrence event base_dir config) (after_match env event config st) = (Ok pe, st1) ->
    let unit_of_work := InvokeCallbacks pe (Config.recipients config) in
    match spawn_greenlet env (hist st1) unit_of_work with
    | Ok _ =>
        handle_event env event st =
          post_handle env (os_path_join base_dir (name event)) config
            (log [c_spawn_greenlet unit_of_work] st1)
    | Raise e =>
        handle_event env event st = (Raise e, log [c_spawn_greenlet unit_of_work] st1)
    end.
Proof.
  intros env event st base_dir config pe st1 Hwd Hcfg Hq Hhot Hrp unit_of_work.
  rewrite (handle_event_data _ _ _ _ _ Hwd Hcfg Hq Hhot).
  erewrite bind_ok by exact Hrp.
  unfold bind, do_spawn_greenlet. rewrite extern_run. fold unit_of_work.
  by destruct (spawn_greenlet env (hist st1) unit_of_work).
Qed.

Lemma hand_over_precedes_clean_up_witness :
  handle_event Scene.no_greenlets Example.a_txt (Example.watching Scene.bare) =
    (Raise Scene.too_many_greenlets,
     log [c_spawn_greenlet (InvokeCallbacks Scene.a_txt_bare ["pickup.log"; "pickup.update"])]
       (Scene.after_patterns Scene.bare)).
Proof.
  apply (hand_over_precedes_clean_up Scene.no_greenlets Example.a_txt
           (Example.watching Scene.bare) "/in" (Example.installed Scene.bare)
           Scene.a_txt_bare (Scene.after_patterns Scene.bare)).
  - vm_compute. reflexivity.
  - vm_compute. reflexivity.
  - vm_compute. reflexivity.
  - reflexivity.
  - vm_compute. reflexivity.
Defined.

(** ** What reaches the recipients *)

Lemma hot_deploy_dispatches_one_unit_spawned env event st base_dir config :
  wd_to_path (self st) !! wd event = Some base_dir ->
  callback_config (self st) !! base_dir = Some config ->
  qualifies env (name event) (Config.patterns config) = true ->
  Config.is_service_hot_deploy config = true ->
  spawned (hist (handle_event env event st).2) =
    spawned (hist st) ++
      [HotDeploy (name event) (os_path_join base_dir (name event))
         (Config.delete_after_pick_up config)].
Proof.
  intros Hwd Hcfg Hq Hhot.
  rewrite (handle_event_known_wd _ _ _ _ _ Hwd Hcfg), Hq.
  rewrite dispatch_hot_deploy by done. cbn [snd]. unfold log; cbn [hist].
  by rewrite spawned_app, spawned_after_match.
Qed.

Lemma spawned_parse env config pe st :
  spawned (hist (parse env config pe st).2) = spawned (hist st).
Proof.
  unfold parse, try_except, parse_body. unfold bind at 1.
  pose proof (spawned_get_parser env (Config.parse_with config) st) as Hg.
  destruct (get_parser env (Config.parse_with config) st) as [[p|e] st1]; cbn [snd] in Hg.
  - unfold bind. rewrite extern_run.
    destruct (call_parser env (hist st1) p (PickupEvent.raw_data pe)) as [d|e]; simpl.
    + by rewrite spawned_app, Hg, app_nil_r.
    + destruct (is_Exception e); simpl; by rewrite spawned_app, Hg, app_nil_r.
  - by destruct (is_Exception e).
Qed.

Lemma spawned_read_and_parse env full_path config pe st :
  spawned (hist (read_and_parse env full_path config pe st).2) = spawned (hist st).
Proof.
  unfold read_and_parse. destruct (Config.read_on_pickup config); [|done].
  unfold bind. pose proof (spawned_read_file env full_path pe st) as Hr.
  destruct (read_file env full_path pe st) as [[pe1|e] st1]; cbn [snd] in Hr; [|done].
  destruct (Config.parse_on_pickup config); [|done].
  by rewrite spawned_parse.
Qed.

Lemma read_and_parse_wellformed env event base_dir config st pe st' :
  read_and_parse env (os_path_join base_dir (name event)) config
    (occurrence event base_dir config) st = (Ok pe, st') ->
  wellformed_occurrence event base_dir config pe.
Proof.
  unfold read_and_parse.
  destruct (Config.read_on_pickup config) eqn:Hread.
  - unfold bind at 1.
    destruct (read_file env _ (occurrence event base_dir config) st)
      as [[pe1|e] st1] eqn:Hfile; [|done].
    destruct (read_file_ok _ _ _ _ _ _ Hfile) as (raw & ->).
    destruct (Config.parse_on_pickup config) eqn:Hparse.
    + unfold parse, try_except.
      destruct (parse_body env config _ st1) as [[pe2|e] st2] eqn:Hbody.
      * intros [= <- <-]. unfold parse_body, bind in Hbody.
        destruct (get_parser env _ st1) as [[p|e] st3]; [|done].
        rewrite extern_run in Hbody.
        destruct (call_parser env _ p _) as [d|e]; [|done].
        injection Hbody as <- _. unfold wellformed_occurrence. simpl.
        rewrite Hread, Hparse. repeat split; done.
      * destruct (is_Exception e); [|done].
        intros [= <- <-]. unfold wellformed_occurrence. simpl.
        rewrite Hread, Hparse. repeat split; done.
    + intros [= <- <-]. unfold wellformed_occurrence. simpl.
      rewrite Hread, Hparse. repeat split; done.
  - intros [= <- <-]. unfold wellformed_occurrence. simpl.
    rewrite Hread. repeat split; done.
Qed.

(** X17. Whatever the event, the environment and the state, the handling of one
    event spawns at most one unit of work.  If it spawns one, the event
    belongs to a registered watch of a configured directory and qualifies,
    and the unit is either the hot deployment of the file or the hand-over
    of one occurrence to the recipients of the configuration.  That
    occurrence has its path fields filled in, has raw data exactly when
    [read_on_pickup] is set, never has both parsed data and a parse error,
    and holds the raw bytes as data when it was read but not parsed. *)
Theorem handle_event_spawns_at_most_one_unit :
  forall env event st,
    let st' := (handle_event env event st).2 in
    spawned (hist st') = spawned (hist st) \/
    exists base_dir config,
      wd_to_path (self st) !! wd event = Some base_dir /\
      callback_config (self st) !! base_dir = Some config /\
      qualifies env (name event) (Config.patterns config) = true /\
      ((Config.is_service_hot_deploy config = true /\
        spawned (hist st') = spawned (hist st) ++
          [HotDeploy (name event) (os_path_join base_dir (name event))
             (Config.delete_after_pick_up config)]) \/
       (Config.is_service_hot_deploy config = false /\
        exists pe,
          wellformed_occurrence event base_dir config pe /\
          spawned (hist st') = spawned (hist st) ++
            [InvokeCallbacks pe (Config.recipients config)])).
Proof.
  intros env event st st'. subst st'.
  destruct (wd_to_path (self st) !! wd event) as [base_dir|] eqn:Hwd;
    [|left; by rewrite (handle_event_unknown_wd _ _ _ Hwd)].
  destruct (callback_config (self st) !! base_dir) as [config|] eqn:Hcfg.
  2:{ left. unfold handle_event, bind, gets, getitem; simpl.
      rewrite Hwd; simpl. by rewrite Hcfg. }
  destruct (qualifies env (name event) (Config.patterns config)) eqn:Hq.
  2:{ left. rewrite (handle_event_known_wd _ _ _ _ _ Hwd Hcfg), Hq.
      apply spawned_after_match. }
  destruct (Config.is_service_hot_deploy config) eqn:Hhot.
  - right. exists base_dir, config. repeat split; auto. left. split; [done|].
    by apply hot_deploy_dispatches_one_unit_spawned.
  - rewrite (handle_event_data _ _ _ _ _ Hwd Hcfg Hq Hhot).
    pose proof (spawned_read_and_parse env (os_path_join base_dir (name event)) config
                  (occurrence event base_dir config) (after_match env event config st)) as Hsp.
    rewrite spawned_after_match in Hsp.
    destruct (read_and_parse env _ config _ (after_match env event config st))
      as [[pe|e] st1] eqn:Hrp; cbn [snd] in Hsp.
    + erewrite bind_ok by exact Hrp.
      right. exists base_dir, config. repeat split; auto. right. split; [done|].
      exists pe. split; [by eapply read_and_parse_wellformed|].
      by rewrite hand_over_spawns_once, Hsp.
    + erewrite bind_raise by exact Hrp. by left.
Qed.

(** ** [invoke_callbacks] *)

Lemma invoke_recipients_ok env recipients request st :
  (forall h r, r ∈ recipients -> spawn_greenlet env h (ServerInvoke r request) = Ok tt) ->
  invoke_recipients env recipients request st =
    (Ok tt, log (invocations request recipients) st).
Proof.
  revert st. induction recipients as [|r rs IH]; intros st Hspawn; simpl.
  - by rewrite log_nil.
  - unfold bind, do_spawn_greenlet. rewrite extern_run, Hspawn by (by left).
    rewrite IH, log_log; [done|]. intros h r' Hr'. apply Hspawn. by right.
Qed.

Lemma invoke_recipients_failure env before r after request st e :
  (forall h r', r' ∈ before -> spawn_greenlet env h (ServerInvoke r' request) = Ok tt) ->
  spawn_greenlet env (hist st ++ invocations request before) (ServerInvoke r request) =
    Raise e ->
  invoke_recipients env (before ++ r :: after) request st =
    (Raise e, log (invocations request (before ++ [r])) st).
Proof.
  revert st. induction before as [|b bs IH]; intros st Hok Hfail; simpl.
  - unfold bind, do_spawn_greenlet. rewrite extern_run.
    simpl in Hfail. rewrite app_nil_r in Hfail. by rewrite Hfail.
  - unfold bind at 1, do_spawn_greenlet. rewrite extern_run, Hok by (by left).
    rewrite IH.
    + by rewrite log_log.
    + intros h r' Hr'. apply Hok. by right.
    + simpl. by rewrite <- app_assoc.
Qed.

(** X18. When the spawns of the recipients go through, [invoke_callbacks] takes
    the time once, builds one request from it, and spawns exactly one
    invocation per recipient, in the order of the list, all with that same
    request; with no recipient it only takes the time. *)
Theorem invoke_callbacks_invokes_each_recipient_once :
  forall env pe recipients st,
    let request := build_request pe (utcnow_isoformat env (hist st)) in
    (forall h r, r ∈ recipients -> spawn_greenlet env h (ServerInvoke r request) = Ok tt) ->
    invoke_callbacks env pe recipients st =
      (Ok tt, log (c_utcnow :: invocations request recipients) st) /\
    spawned (hist (invoke_callbacks env pe recipients st).2) =
      spawned (hist st) ++ map (fun r => ServerInvoke r request) recipients.
Proof.
  intros env pe recipients st request Hspawn.
  assert (invoke_callbacks env pe recipients st =
          (Ok tt, log (c_utcnow :: invocations request recipients) st)) as Hrun.
  { unfold invoke_callbacks, bind. rewrite extern_run.
    erewrite try_except_ok by (by apply invoke_recipients_ok).
    by rewrite log_log. }
  split; [exact Hrun|]. rewrite Hrun. unfold log; cbn [snd hist].
  rewrite spawned_app. cbn [spawned]. unfold invocations.
  by rewrite spawned_server_invokes.
Qed.

Lemma invoke_callbacks_invokes_each_recipient_once_witness :
  spawned (hist (invoke_callbacks Example.calm Scene.a_txt_bare
                   ["pickup.log"; "pickup.update"] (Scene.after_patterns Scene.bare)).2) =
    [ServerInvoke "pickup.log" (build_request Scene.a_txt_bare "2016-03-01T10:00:00");
     ServerInvoke "pickup.update" (build_request Scene.a_txt_bare "2016-03-01T10:00:00")].
Proof.
  apply (invoke_callbacks_invokes_each_recipient_once Example.calm Scene.a_txt_bare
           ["pickup.log"; "pickup.update"] (Scene.after_patterns Scene.bare)).
  reflexivity.
Defined.

(** X19. The [try] of [invoke_callbacks] is around the whole loop, not around
    one spawn: when the spawn for a recipient raises, the recipients after
    it in the list are not invoked at all.  An [Exception] is logged and
    the method returns; anything else propagates. *)
Theorem failed_recipient_cuts_off_the_rest :
  forall env pe before r after st e,
    let request := build_request pe (utcnow_isoformat env (hist st)) in
    (forall h r', r' ∈ before -> spawn_greenlet env h (ServerInvoke r' request) = Ok tt) ->
    spawn_greenlet env (hist st ++ c_utcnow :: invocations request before)
      (ServerInvoke r request) = Raise e ->
    invoke_callbacks env pe (before ++ r :: after) st =
      (if is_Exception e
       then (Ok tt, log (c_utcnow :: invocations request (before ++ [r]) ++ [c_logger_warn e]) st)
       else (Raise e, log (c_utcnow :: invocations request (before ++ [r])) st)) /\
    spawned (hist (invoke_callbacks env pe (before ++ r :: after) st).2) =
      spawned (hist st) ++ map (fun r => ServerInvoke r request) (before ++ [r]).
Proof.
  intros env pe before r after st e request Hok Hfail.
  assert (invoke_recipients env (before ++ r :: after) request (log [c_utcnow] st) =
          (Raise e, log (invocations request (before ++ [r])) (log [c_utcnow] st))) as Hrec.
  { apply invoke_recipients_failure; [done|].
    simpl. by rewrite <- app_assoc. }
  assert (invoke_callbacks env pe (before ++ r :: after) st =
      (if is_Exception e
       then (Ok tt, log (c_utcnow :: invocations request (before ++ [r]) ++ [c_logger_warn e]) st)
       else (Raise e, log (c_utcnow :: invocations request (before ++ [r])) st))) as Hrun.
  { unfold invoke_callbacks, bind. rewrite extern_run. fold request.
    destruct (is_Exception e) eqn:He.
    - erewrite try_except_caught by (exact Hrec || exact He).
      unfold logger_warn. rewrite extern_run. by rewrite !log_log.
    - erewrite try_except_escapes by (exact Hrec || exact He).
      by rewrite log_log. }
  split; [exact Hrun|]. rewrite Hrun.
  destruct (is_Exception e); unfold log; cbn [snd hist]; rewrite spawned_app;
    cbn [spawned]; rewrite ?spawned_app; unfold invocations;
    rewrite spawned_server_invokes; simpl; by rewrite ?app_nil_r.
Qed.

Lemma failed_recipient_cuts_off_the_rest_witness :
  invoke_callbacks Scene.deaf_recipient Scene.a_txt_bare
    ["pickup.log"; "pickup.update"; "pickup.audit"] (Scene.after_patterns Scene.bare) =
  (Ok tt,
   log [c_utcnow;
        c_spawn_greenlet
          (ServerInvoke "pickup.log" (build_request Scene.a_txt_bare "2016-03-01T10:00:00"));
        c_spawn_greenlet
          (ServerInvoke "pickup.update" (build_request Scene.a_txt_bare "2016-03-01T10:00:00"));
        c_logger_warn Scene.too_many_greenlets]
     (Scene.after_patterns Scene.bare)).
Proof.
  apply (failed_recipient_cuts_off_the_rest Scene.deaf_recipient Scene.a_txt_bare
           ["pickup.log"] "pickup.update" ["pickup.audit"]
           (Scene.after_patterns Scene.bare) Scene.too_many_greenlets).
  - intros h r' Hr'. apply list_elem_of_singleton in Hr'. by subst r'.
  - reflexivity.
Defined.

(** ** [post_handle] *)

(** X20. [post_handle] touches nothing but the file it is given, and only as
    configured: it copies only to a move target that is set and not empty,
    removes only when [delete_after_pick_up] is set, and with neither it
    makes no call at all. *)
Theorem post_handle_touches_only_what_is_configured :
  forall env full_path config st,
    exists cs,
      (post_handle env full_path config st).2 = log cs st /\
      (forall c, c ∈ cs ->
         (exists dst, c = c_shutil_copy full_path dst /\
                      Config.move_processed_to config = Some dst /\ dst <> "") \/
         (c = c_os_remove full_path /\ Config.delete_after_pick_up config = true)) /\
      ((Config.move_processed_to config = None \/
        Config.move_processed_to config = Some "") ->
       Config.delete_after_pick_up config = false ->
       post_handle env full_path config st = (Ok tt, st)).
Proof.
  intros env full_path config st. unfold post_handle, move_target.
  destruct (Config.move_processed_to config) as [dst|] eqn:Hmove.
  - destruct (String.eqb_spec dst "") as [->|Hdst].
    + destruct (Config.delete_after_pick_up config) eqn:Hdel.
      * exists [c_os_remove full_path]. repeat split; [|done].
        intros c Hc. apply list_elem_of_singleton in Hc as ->. by right.
      * exists []. rewrite log_nil. repeat split.
        intros c Hc. by apply elem_of_nil in Hc.
    + unfold bind at 1. rewrite extern_run.
      destruct (shutil_copy env (hist st) full_path dst) as [[]|e].
      * destruct (Config.delete_after_pick_up config) eqn:Hdel.
        -- exists [c_shutil_copy full_path dst; c_os_remove full_path].
           rewrite extern_run, log_log. repeat split.
           ++ intros c Hc. apply elem_of_cons in Hc as [->|Hc]; [left; eauto|].
              apply list_elem_of_singleton in Hc as ->. by right.
           ++ intros [?|?]; by simplify_eq.
        -- exists [c_shutil_copy full_path dst]. repeat split.
           ++ intros c Hc. apply list_elem_of_singleton in Hc as ->. left; eauto.
           ++ intros [?|?]; by simplify_eq.
      * exists [c_shutil_copy full_path dst]. repeat split.
        -- intros c Hc. apply list_elem_of_singleton in Hc as ->. left; eauto.
        -- intros [?|?]; by simplify_eq.
  - destruct (Config.delete_after_pick_up config) eqn:Hdel.
    + exists [c_os_remove full_path]. repeat split; [|done].
      intros c Hc. apply list_elem_of_singleton in Hc as ->. by right.
    + exists []. rewrite log_nil. repeat split.
      intros c Hc. by apply elem_of_nil in Hc.
Qed.

(** ** Parser identifiers *)

(** X21. In every state a manager reaches from its construction, an identifier
    that does not consist of exactly two parts around one colon is not
    resolved at all: the unpacking of line 102 raises [ValueError], nothing
    is imported and the manager is as it was. *)
Theorem malformed_identifier_raises_value_error :
  forall env parser_name config h steps,
    let st := exec_all steps (initial config h) in
    length (split ":"%char (strip parser_name)) <> 2%nat ->
    get_parser env parser_name st =
      (Raise (Exn ValueError
                (PyStr (if Nat.eqb (length (split ":"%char (strip parser_name))) 1
                        then "need more than 1 value to unpack"
                        else "too many values to unpack"))), st).
Proof.
  intros env parser_name config h steps st Hlen.
  assert (cache_wf st) as Hwf.
  { apply (exec_all_cache_grows steps (initial config h)), initial_cache_wf. }
  assert (_parser_cache (self st) !! parser_name = None) as Hnone.
  { destruct (_parser_cache (self st) !! parser_name) as [p|] eqn:Hc; [|done].
    destruct (Hwf _ _ Hc) as (name & Hs). by rewrite Hs in Hlen. }
  unfold get_parser, bind, gets; simpl. rewrite Hnone.
  pose proof (split_not_nil ":"%char (strip parser_name)) as Hnil.
  destruct (split ":" (strip parser_name)) as [|a [|b [|c rest]]]; done.
Qed.

Lemma malformed_identifier_raises_value_error_witness :
  get_parser Example.calm "json.loads"
    (exec_all Example.interlude (initial [("inbox", Example.parsed)] [])) =
  (Raise (Exn ValueError (PyStr "need more than 1 value to unpack")),
   exec_all Example.interlude (initial [("inbox", Example.parsed)] [])).
Proof.
  apply (malformed_identifier_raises_value_error Example.calm "json.loads"
           [("inbox", Example.parsed)] [] Example.interlude).
  vm_compute. discriminate.
Defined.

(** X22. A resolution that succeeds leaves the cache with the callable under
    the identifier exactly as it was given (not stripped), every other
    entry untouched, and nothing else of the manager changed: identifiers
    that differ only by blanks around them are cached apart. *)
Theorem successful_resolution_sets_one_cache_entry :
  forall env parser_name st parser st1,
    get_parser env parser_name st = (Ok parser, st1) ->
    _parser_cache (self st1) = <[parser_name := parser]> (_parser_cache (self st)) /\
    (forall other, other <> parser_name ->
       _parser_cache (self st1) !! other = _parser_cache (self st) !! other) /\
    same_but_cache st st1.
Proof.
  intros env parser_name st parser st1 Hg.
  assert (_parser_cache (self st1) = <[parser_name := parser]> (_parser_cache (self st)) /\
          same_but_cache st st1) as [Hcache Hsame].
  { destruct (_parser_cache (self st) !! parser_name) as [p|] eqn:Hc.
    - rewrite (get_parser_cached _ _ _ _ Hc) in Hg. simplify_eq.
      split; [by rewrite insert_id | apply same_but_cache_refl].
    - destruct (get_parser_uncached env parser_name st Hc)
        as [(e & He & _) | [(name & e & st' & _ & _ & He & _)
                           | (name & p & st' & _ & _ & _ & Hok)]];
        rewrite Hg in *; simplify_eq.
      split; [done | by repeat split]. }
  repeat split; try apply Hsame; [exact Hcache|].
  intros other Hne. rewrite Hcache. by rewrite lookup_insert_ne.
Qed.

Lemma successful_resolution_sets_one_cache_entry_witness :
  _parser_cache (self (get_parser Example.calm " py:json.loads"
                         (Example.watching Example.parsed)).2) !! "py:json.loads" =
  _parser_cache (self (Example.watching Example.parsed)) !! "py:json.loads".
Proof.
  apply (successful_resolution_sets_one_cache_entry Example.calm " py:json.loads"
           (Example.watching Example.parsed) 12%N
           (get_parser Example.calm " py:json.loads" (Example.watching Example.parsed)).2).
  - vm_compute. reflexivity.
  - discriminate.
Defined.

Lemma string_app_assoc (a b c : string) : (a +:+ b) +:+ c = a +:+ b +:+ c.
Proof.
  induction a as [|x a IH]; [done|].
  change (String x ((a +:+ b) +:+ c) = String x (a +:+ b +:+ c)). by rewrite IH.
Qed.

Lemma split_join sep s : join (String sep "") (split sep s) = s.
Proof.
  induction s as [|a s IH]; simpl; [done|].
  destruct (Ascii.eqb_spec a sep) as [->|Hne].
  - pose proof (split_not_nil sep s) as Hnil.
    destruct (split sep s) as [|w ws]; [done|].
    change (join (String sep "") ("" :: w :: ws))
      with (String sep (join (String sep "") (w :: ws))).
    by rewrite IH.
  - destruct (split sep s) as [|w ws]; [by rewrite <- IH|].
    rewrite <- IH. by destruct ws.
Qed.

Lemma split_parts_without_sep sep s :
  Forall (fun part => has_char sep part = false) (split sep s).
Proof.
  induction s as [|a s IH]; simpl; [by repeat constructor|].
  destruct (Ascii.eqb_spec a sep) as [->|Hne].
  - by constructor.
  - destruct (split sep s) as [|w ws]; simpl.
    + repeat constructor. simpl. rewrite orb_false_r. by apply Ascii.eqb_neq.
    + inversion IH as [|? ? Hw Hws]; subst. constructor; [|done].
      simpl. rewrite Hw, orb_false_r. by apply Ascii.eqb_neq.
Qed.

Lemma split_without_sep sep s : has_char sep s = false -> split sep s = [s].
Proof.
  induction s as [|a s IH]; simpl; [done|].
  intros Hno. apply orb_false_iff in Hno as [Ha Hs].
  rewrite Ha. by rewrite (IH Hs).
Qed.

Lemma split_with_sep sep s :
  has_char sep s = true -> (2 <= length (split sep s))%nat.
Proof.
  induction s as [|a s IH]; simpl; [done|].
  pose proof (split_not_nil sep s) as Hnil.
  destruct (Ascii.eqb a sep); simpl.
  - intros _. destruct (split sep s); [done | simpl; lia].
  - intros Hs. specialize (IH Hs). destruct (split sep s); simpl in *; lia.
Qed.

Lemma join_snoc sep parts part :
  parts <> [] -> join sep (parts ++ [part]) = join sep parts +:+ sep +:+ part.
Proof.
  induction parts as [|p [|q rest] IH]; intros Hne; [done|done|].
  change (join sep ((p :: q :: rest) ++ [part]))
    with (p +:+ sep +:+ join sep ((q :: rest) ++ [part])).
  rewrite IH by done.
  change (join sep (p :: q :: rest)) with (p +:+ sep +:+ join sep (q :: rest)).
  by rewrite !string_app_assoc.
Qed.

(** X23. [get_py_parser] cuts the name at its last dot: the callable name has
    no dot, the module path and the callable name put together around a dot
    give the name back, and a name without a dot asks for the import of
    the module with the empty name.  The attribute is looked up only if the
    import returned, and in the module it returned. *)
Theorem get_py_parser_cuts_at_last_dot :
  forall env name st,
    let module_path := join "." (but_last (split "."%char name)) in
    let callable_name := last_part (split "."%char name) in
    has_char "."%char callable_name = false /\
    name = (if has_char "."%char name then module_path +:+ "." +:+ callable_name
            else callable_name) /\
    (has_char "."%char name = false -> module_path = "") /\
    get_py_parser env name st =
      match import_module env (hist st) module_path with
      | Ok module =>
          (py_getattr env (hist st ++ [c_import_module module_path]) module callable_name,
           log [c_import_module module_path; c_getattr module callable_name] st)
      | Raise e => (Raise e, log [c_import_module module_path] st)
      end.
Proof.
  intros env name st module_path callable_name.
  pose proof (split_not_nil "."%char name) as Hnil.
  pose proof (split_join "."%char name) as Hjoin.
  pose proof (split_parts_without_sep "."%char name) as Hparts.
  assert (split "."%char name = but_last (split "."%char name) ++ [callable_name]) as Hcut.
  { by apply app_removelast_last. }
  split; [|split; [|split]].
  - rewrite Forall_forall in Hparts. apply Hparts.
    rewrite Hcut. apply elem_of_app. right. by left.
  - destruct (has_char "."%char name) eqn:Hdot.
    + rewrite <- Hjoin at 1. rewrite Hcut at 1. apply join_snoc.
      apply split_with_sep in Hdot. rewrite Hcut in Hdot.
      intros Hempty. rewrite Hempty in Hdot. simpl in Hdot. lia.
    + subst callable_name. by rewrite (split_without_sep _ _ Hdot).
  - intros Hdot. subst module_path. by rewrite (split_without_sep _ _ Hdot).
  - unfold get_py_parser, bind. rewrite extern_run. fold module_path.
    destruct (import_module env (hist st) module_path) as [module|e]; [|done].
    rewrite extern_run. fold callable_name. by rewrite log_log.
Qed.
